(** * Extraction de-duplication and insight synthesis

    A shallow embedding of the pure core of the document-analysis service:

    - [app/services/extractor.py]: [_merge_attributes],
      [_deduplicate_extractions], [_chunk_and_extract] and the length test of
      [extract_insights];
    - [app/templates/extraction_templates.py]: the template registry and
      [get_template];
    - [app/services/report_generator.py]: [_get_category_order],
      [_generate_executive_summary], [_generate_key_insights] and the ordering
      of the detailed listing in [generate_pdf_report];
    - [app/api/routes/analyze.py]: [_generate_summary].

    Python values are modelled as follows.  A [str] is a [string] whose
    characters are read as the code points U+0000..U+00FF; an [int] is a [Z];
    a [dict] is an association list kept in insertion order with one entry
    per key, because CPython dictionaries iterate in insertion order and the
    source relies on it ([grouped.items()]); a [set] of strings is a
    duplicate-free list, its iteration order being unobservable since the
    source only takes [len] and [sorted] of it; a call that raises returns
    [None]. *)

From Stdlib Require Import List String Ascii ZArith Lia Bool.
From Stdlib Require Import Permutation Sorted DecimalString.
Import ListNotations.
Local Open Scope Z_scope.
Local Open Scope list_scope.

(** ** Keys with a decidable equality (Python: hashable with [__eq__]) *)

Class EqKey (K : Type) := { keqb : K -> K -> bool }.

Class EqKeyLaws (K : Type) `{EqKey K} := {
  keqb_spec : forall a b : K, reflect (a = b) (keqb a b)
}.

#[export] Instance EqKey_string : EqKey string := {| keqb := String.eqb |}.

#[export] Instance EqKey_pair {A B} `{EqKey A} `{EqKey B} : EqKey (A * B) :=
  {| keqb := fun p q => keqb (fst p) (fst q) && keqb (snd p) (snd q) |}.

(** ** Insertion-ordered dictionaries *)

Module ODict.
Section Ops.
Context {K V : Type} `{EqKey K}.

(** [d.get(k)] *)
Fixpoint get (d : list (K * V)) (k : K) : option V :=
  match d with
  | [] => None
  | (k', v) :: r => if keqb k' k then Some v else get r k
  end.

(** [k in d] *)
Definition mem (d : list (K * V)) (k : K) : bool :=
  match get d k with Some _ => true | None => false end.

(** [d[k] = v]: an existing key keeps its position, a new one goes last. *)
Fixpoint set (d : list (K * V)) (k : K) (v : V) : list (K * V) :=
  match d with
  | [] => [(k, v)]
  | (k', v') :: r =>
      if keqb k' k then (k', v) :: r else (k', v') :: set r k v
  end.

Definition keys (d : list (K * V)) : list K := map fst d.

(** One entry per key: the shape of every real dictionary. *)
Definition wf (d : list (K * V)) : Prop := NoDup (keys d).

End Ops.
End ODict.

(** [d.get(k, default)] *)
Definition get_or {K V} `{EqKey K} (d : list (K * V)) (k : K) (default : V)
  : V :=
  match ODict.get d k with Some v => v | None => default end.

(** ** Python scalars held by attribute dictionaries

    The attribute values the extraction stage emits are scalars; floats and
    containers are outside this model. *)

Inductive value : Type :=
  | VNone
  | VBool (b : bool)
  | VInt (n : Z)
  | VStr (s : string).

(** [bool(v)] *)
Definition truthy (v : value) : bool :=
  match v with
  | VNone => false
  | VBool b => b
  | VInt n => negb (n =? 0)
  | VStr s => negb (String.eqb s EmptyString)
  end.

(** [str(n)] for an [int] *)
Definition str_of_Z (n : Z) : string := NilZero.string_of_int (Z.to_int n).

(** [str(v)] *)
Definition py_str (v : value) : string :=
  match v with
  | VNone => "None"
  | VBool true => "True"
  | VBool false => "False"
  | VInt n => str_of_Z n
  | VStr s => s
  end.

(** The integer a value stands for in a comparison: [bool] is a subclass
    of [int]. *)
Definition py_int (v : value) : option Z :=
  match v with
  | VInt n => Some n
  | VBool true => Some 1
  | VBool false => Some 0
  | _ => None
  end.

(** [a < b]: numbers with numbers, strings with strings by code point;
    anything else raises [TypeError]. *)
Definition py_lt (a b : value) : option bool :=
  match a, b with
  | VStr s, VStr t => Some (String.ltb s t)
  | _, _ =>
      match py_int a, py_int b with
      | Some x, Some y => Some (x <? y)
      | _, _ => None
      end
  end.

Definition dict : Type := list (string * value).

(** ** [sorted] and [str.join] *)

Section Sorting.
Context {A : Type} (le : A -> A -> bool).

(** Stable insertion: [x] came before every element of [l] in the input,
    so it stays in front of the elements it is not greater than. *)
Fixpoint insert_sorted (x : A) (l : list A) : list A :=
  match l with
  | [] => [x]
  | y :: r => if le x y then x :: l else y :: insert_sorted x r
  end.

(** [sorted(l)] for a total order [le]; Python's sort is stable. *)
Definition py_sorted (l : list A) : list A :=
  fold_right insert_sorted [] l.

End Sorting.

(** [sep.join(l)] *)
Fixpoint join (sep : string) (l : list string) : string :=
  match l with
  | [] => EmptyString
  | [s] => s
  | s :: r => (s ++ sep ++ join sep r)%string
  end.

(** ** The attribute merger: [_merge_attributes] *)

(** [values.add(s)] on a set of strings *)
Definition set_add (s : string) (l : list string) : list string :=
  if existsb (keqb s) l then l else l ++ [s].

(** [value_sets[key]] of the [defaultdict(set)], read without inserting *)
Definition vs_get (vs : list (string * list string)) (key : string)
  : list string :=
  get_or vs key [].

(** [value_sets[key].add(s)] *)
Definition vs_add (vs : list (string * list string)) (key s : string)
  : list (string * list string) :=
  ODict.set vs key (set_add s (vs_get vs key)).

Definition merge_state : Type := (dict * list (string * list string))%type.

(** Body of the inner loop, lines 116-121. *)
Definition merge_item (st : merge_state) (kv : string * value) : merge_state :=
  let '(merged, value_sets) := st in
  let '(key, v) := kv in
  (if ODict.mem merged key then merged else ODict.set merged key v,
   if truthy v then vs_add value_sets key (py_str v) else value_sets).

(** Lines 114-121: the loop over the maps and the loop over their items. *)
Definition merge_collect (all_attributes : list dict) : merge_state :=
  fold_left (fun st attrs => fold_left merge_item attrs st)
            all_attributes ([], []).

(** [f"{key}_variations"] *)
Definition variations_key (key : string) : string :=
  (key ++ "_variations")%string.

(** Body of the loop of lines 124-126. *)
Definition add_variation (merged : dict) (kvs : string * list string) : dict :=
  let '(key, values) := kvs in
  if Z.of_nat (List.length values) >? 1
  then ODict.set merged (variations_key key)
         (VStr (join ", " (py_sorted String.leb values)))
  else merged.

Definition _merge_attributes (all_attributes : list dict) : dict :=
  match all_attributes with
  | [] => []
  | _ =>
      let '(merged, value_sets) := merge_collect all_attributes in
      fold_left add_variation value_sets merged
  end.

(** ** [str.strip], [str.lower] and [str.upper] on U+0000..U+00FF *)

(** [c.isspace()]: TAB..CR, FS..US, SPACE, NEL and NBSP. *)
Definition is_space (c : ascii) : bool :=
  let n := N_of_ascii c in
  ((9 <=? n) && (n <=? 13) || (28 <=? n) && (n <=? 32)
   || (n =? 133) || (n =? 160))%N.

(** [c.lower()]: A..Z and the upper-case letters of Latin-1 (all of
    U+00C0..U+00DE but the multiplication sign) move up by 32. *)
Definition lower_char (c : ascii) : ascii :=
  let n := N_of_ascii c in
  if ((65 <=? n) && (n <=? 90)
      || (192 <=? n) && (n <=? 222) && negb (n =? 215))%N
  then ascii_of_N (n + 32) else c.

Fixpoint lower (s : string) : string :=
  match s with
  | EmptyString => EmptyString
  | String c r => String (lower_char c) (lower r)
  end.

(** [c.upper()] where the result stays below U+0100: a..z and
    U+00E0..U+00FE but the division sign move down by 32.  (The upper-case
    forms of U+00B5, U+00DF and U+00FF lie outside; the source only applies
    [upper] to the document-type tags, which are ASCII.) *)
Definition upper_char (c : ascii) : ascii :=
  let n := N_of_ascii c in
  if ((97 <=? n) && (n <=? 122)
      || (224 <=? n) && (n <=? 254) && negb (n =? 247))%N
  then ascii_of_N (n - 32) else c.

Fixpoint upper (s : string) : string :=
  match s with
  | EmptyString => EmptyString
  | String c r => String (upper_char c) (upper r)
  end.

Fixpoint lstrip (s : string) : string :=
  match s with
  | EmptyString => EmptyString
  | String c r => if is_space c then lstrip r else s
  end.

Fixpoint rstrip (s : string) : string :=
  match s with
  | EmptyString => EmptyString
  | String c r =>
      match rstrip r with
      | EmptyString => if is_space c then EmptyString else String c EmptyString
      | r' => String c r'
      end
  end.

Definition strip (s : string) : string := rstrip (lstrip s).

(** [s.replace(a, b)] for one-character [a] and [b] *)
Fixpoint replace_char (a b : ascii) (s : string) : string :=
  match s with
  | EmptyString => EmptyString
  | String c r =>
      String (if Ascii.eqb c a then b else c) (replace_char a b r)
  end.

(** ** Extractions and the de-duplicator: [_deduplicate_extractions] *)

(** The [attributes] field of an extraction object: [None], a dictionary, or
    (nothing in Python prevents it) an object that is not a mapping. *)
Inductive attrs_field : Type :=
  | AttrNone
  | AttrDict (d : dict)
  | AttrOther (v : value).

Record Extraction : Type := mkExtraction {
  extraction_class : string;
  extraction_text : string;
  attributes : attrs_field
}.

Definition ident : Type := (string * string)%type.

(** Lines 66-69: the key of the grouping dictionary. *)
Definition key_of (e : Extraction) : ident :=
  (extraction_class e, lower (strip (extraction_text e))).

(** One value of [grouped]. *)
Record group : Type := mkGroup {
  g_extraction : option Extraction;
  g_count : Z;
  g_all_attributes : list dict
}.

(** The [defaultdict] factory of lines 58-62. *)
Definition default_group : group := mkGroup None 0 [].

(** Line 77: [extraction.attributes and isinstance(extraction.attributes,
    dict)] lets the non-empty dictionaries through. *)
Definition contributed (a : attrs_field) : list dict :=
  match a with
  | AttrDict ((_ :: _) as d) => [d]
  | _ => []
  end.

(** Body of the grouping loop, lines 64-78. *)
Definition group_step (grouped : list (ident * group)) (e : Extraction)
  : list (ident * group) :=
  let key := key_of e in
  let g := get_or grouped key default_group in
  ODict.set grouped key
    (mkGroup (match g_extraction g with None => Some e | Some r => Some r end)
             (g_count g + 1)
             (g_all_attributes g ++ contributed (attributes e))).

Definition group_extractions (extractions : list Extraction)
  : list (ident * group) :=
  fold_left group_step extractions [].

(** Lines 87-92: the merged attributes of one group. *)
Definition merged_attrs_of (data : group) : dict :=
  let merged_attrs := _merge_attributes (g_all_attributes data) in
  if g_count data >? 1
  then ODict.set merged_attrs "mention_count"%string (VInt (g_count data))
  else merged_attrs.

(** [d if d else {}] *)
Definition or_empty (d : dict) : dict :=
  match d with
  | [] => []
  | _ :: _ => d
  end.

(** Body of the building loop, lines 83-96.  [None] stands for the
    [AttributeError] of assigning to a missing representative. *)
Definition build_merged (data : group) : option Extraction :=
  let merged_attrs := merged_attrs_of data in
  match g_extraction data with
  | None => None
  | Some e =>
      Some (mkExtraction (extraction_class e) (extraction_text e)
              (AttrDict (or_empty merged_attrs)))
  end.

Fixpoint traverse {A B} (f : A -> option B) (l : list A) : option (list B) :=
  match l with
  | [] => Some []
  | x :: r =>
      match f x with
      | None => None
      | Some y =>
          match traverse f r with
          | None => None
          | Some ys => Some (y :: ys)
          end
      end
  end.

Definition _deduplicate_extractions (extractions : list Extraction)
  : option (list Extraction) :=
  traverse (fun kd => build_merged (snd kd)) (group_extractions extractions).

(** ** The truncation policy: [_chunk_and_extract] behind its length test *)

(** [len(s)] *)
Definition len (s : string) : Z := Z.of_nat (String.length s).

Fixpoint take (n : nat) (s : string) : string :=
  match n, s with
  | S n', String c r => String c (take n' r)
  | _, _ => EmptyString
  end.

(** [s[:n]] *)
Definition slice_to (s : string) (n : Z) : string :=
  if n <? 0 then take (Z.to_nat (len s + n)) s else take (Z.to_nat n) s.

(** [s[i]] for [0 <= i] *)
Definition char_at (s : string) (i : Z) : option ascii :=
  if i <? 0 then None else String.get (Z.to_nat i) s.

Fixpoint rfind_from (c : ascii) (s : string) (i found : Z) : Z :=
  match s with
  | EmptyString => found
  | String a r => rfind_from c r (i + 1) (if Ascii.eqb a c then i else found)
  end.

(** [s.rfind(c)]: the highest index holding [c], or [-1]. *)
Definition rfind (s : string) (c : ascii) : Z := rfind_from c s 0 (-1).

(** The [template] argument of the source is not used by the body. *)
Definition _chunk_and_extract (text : string) : string :=
  let chunk_size := 4000 in
  if len text >? chunk_size then
    let last_space := rfind (slice_to text chunk_size) " "%char in
    if last_space >? chunk_size - 200
    then slice_to text last_space
    else slice_to text chunk_size
  else text.

(** Lines 33-34 of [extract_insights]: the text handed to the extractor. *)
Definition extract_insights_text (text : string) : string :=
  if len text >? 8000 then _chunk_and_extract text else text.

(** ** Document types and the template registry *)

(** [class DocumentType(str, Enum)]: every member is the [str] given by
    [DocumentType_value], and hashes and compares as that string. *)
Inductive DocumentType : Type :=
  | STORY | MEETING | RESEARCH | TECHNICAL | LEGAL | GENERAL.

Definition DocumentType_value (d : DocumentType) : string :=
  match d with
  | STORY => "story"
  | MEETING => "meeting"
  | RESEARCH => "research"
  | TECHNICAL => "technical"
  | LEGAL => "legal"
  | GENERAL => "general"
  end.

(** [lx.data.ExampleData] *)
Record ExampleData : Type := mkExample {
  example_text : string;
  example_extractions : list Extraction
}.

Record ExtractionTemplate : Type := mkTemplate {
  prompt_description : string;
  examples : list ExampleData;
  extraction_classes : list string;
  report_sections : list string
}.

Local Open Scope string_scope.

Definition STORY_TEMPLATE : ExtractionTemplate :=
  mkTemplate
"Extract key narrative elements from this story in order of appearance.
    Focus on: characters with their traits, major plot points, themes/morals, and setting details.
    Use exact text for extractions. Provide meaningful attributes for context."
    [mkExample
"ROMEO. But soft! What light through yonder window breaks? It is the east, and Juliet is the sun."
       [
        mkExtraction "character" "ROMEO"
          (AttrDict [("emotional_state", VStr "wonder"); ("role", VStr "protagonist")]);
        mkExtraction "plot_point" "What light through yonder window breaks?"
          (AttrDict [("significance", VStr "Romeo sees Juliet")]);
        mkExtraction "theme" "Juliet is the sun"
          (AttrDict [("type", VStr "metaphor"); ("meaning", VStr "love and admiration")])]]
    ["character"; "plot_point"; "theme"; "setting"; "moral"]
    ["Characters"; "Plot Summary"; "Themes & Morals"; "Setting"].

Definition MEETING_TEMPLATE : ExtractionTemplate :=
  mkTemplate
"Extract meeting elements in order of discussion.
    Focus on: speakers with roles, agenda items, action items with owners, decisions made, and key discussion points.
    Use exact text. Include deadlines and responsibilities in attributes."
    [mkExample
"John (PM): We need to finalize the Q4 roadmap by Friday. Sarah, can you prepare the budget analysis?"
       [
        mkExtraction "speaker" "John"
          (AttrDict [("role", VStr "PM"); ("title", VStr "Project Manager")]);
        mkExtraction "agenda_item" "finalize the Q4 roadmap"
          (AttrDict [("deadline", VStr "Friday"); ("priority", VStr "high")]);
        mkExtraction "action_item" "prepare the budget analysis"
          (AttrDict [("owner", VStr "Sarah"); ("deadline", VStr "implied")])]]
    ["speaker"; "agenda_item"; "action_item"; "decision"; "discussion_point"]
    ["Participants"; "Agenda"; "Decisions"; "Action Items"; "Key Discussions"].

Definition RESEARCH_TEMPLATE : ExtractionTemplate :=
  mkTemplate
"Extract research paper elements systematically.
    Focus on: authors, research questions, methodology, key findings, conclusions, and important citations.
    Use exact text. Include statistical data and significance in attributes."
    [mkExample
"Dr. Smith et al. investigated the impact of AI on productivity. Results showed a 35% improvement (p<0.05)."
       [
        mkExtraction "author" "Dr. Smith et al."
          (AttrDict [("role", VStr "lead researcher")]);
        mkExtraction "research_question" "impact of AI on productivity"
          (AttrDict [("domain", VStr "AI applications")]);
        mkExtraction "finding" "35% improvement"
          (AttrDict [("significance", VStr "p<0.05"); ("type", VStr "quantitative")])]]
    ["author"; "research_question"; "methodology"; "finding"; "conclusion"; "citation"]
    ["Authors"; "Research Questions"; "Methodology"; "Key Findings"; "Conclusions"].

Definition TECHNICAL_TEMPLATE : ExtractionTemplate :=
  mkTemplate
"Extract technical documentation elements.
    Focus on: components/modules, APIs/functions, configuration parameters, dependencies, and usage examples.
    Use exact text. Include technical specifications in attributes."
    [mkExample
"The authenticate() function requires an API key parameter. Returns a JWT token valid for 24 hours."
       [
        mkExtraction "function" "authenticate()"
          (AttrDict [("type", VStr "authentication"); ("return_type", VStr "JWT token")]);
        mkExtraction "parameter" "API key parameter"
          (AttrDict [("required", VStr "true"); ("type", VStr "string")]);
        mkExtraction "specification" "valid for 24 hours"
          (AttrDict [("component", VStr "JWT token"); ("duration", VStr "24 hours")])]]
    ["component"; "function"; "parameter"; "dependency"; "configuration"; "example"]
    ["Components"; "APIs/Functions"; "Configuration"; "Dependencies"; "Usage Examples"].

Definition LEGAL_TEMPLATE : ExtractionTemplate :=
  mkTemplate
"Extract legal document elements carefully.
    Focus on: parties involved, key clauses, obligations, dates/deadlines, and important terms.
    Use exact text. Include legal implications in attributes."
    [mkExample
"The Vendor shall deliver the goods by December 31, 2024. Failure to comply results in a 10% penalty."
       [
        mkExtraction "party" "The Vendor"
          (AttrDict [("role", VStr "service provider")]);
        mkExtraction "obligation" "deliver the goods"
          (AttrDict [("deadline", VStr "December 31, 2024"); ("responsible_party", VStr "Vendor")]);
        mkExtraction "clause" "Failure to comply results in a 10% penalty"
          (AttrDict [("type", VStr "penalty clause"); ("amount", VStr "10%")])]]
    ["party"; "clause"; "obligation"; "deadline"; "term"; "penalty"]
    ["Parties"; "Key Clauses"; "Obligations"; "Important Dates"; "Terms & Conditions"].

Definition GENERAL_TEMPLATE : ExtractionTemplate :=
  mkTemplate
"Extract key information from this document.
    Focus on: main topics, key points, important entities (people, organizations, dates), and significant statements.
    Use exact text. Provide context in attributes."
    [mkExample
"The company announced a merger with TechCorp on March 15th. CEO Jane Doe stated this will increase market share by 20%."
       [
        mkExtraction "entity" "TechCorp"
          (AttrDict [("type", VStr "organization"); ("context", VStr "merger partner")]);
        mkExtraction "key_point" "merger with TechCorp"
          (AttrDict [("date", VStr "March 15th"); ("significance", VStr "major business event")]);
        mkExtraction "entity" "Jane Doe"
          (AttrDict [("role", VStr "CEO"); ("type", VStr "person")]);
        mkExtraction "key_point" "increase market share by 20%"
          (AttrDict [("type", VStr "projection"); ("metric", VStr "market share")])]]
    ["entity"; "key_point"; "topic"; "statement"; "date"]
    ["Key Topics"; "Important Entities"; "Main Points"; "Significant Statements"].

Local Close Scope string_scope.

(** The registry; its keys are the members of [DocumentType]. *)
Definition TEMPLATES : list (string * ExtractionTemplate) :=
  [(DocumentType_value STORY, STORY_TEMPLATE);
   (DocumentType_value MEETING, MEETING_TEMPLATE);
   (DocumentType_value RESEARCH, RESEARCH_TEMPLATE);
   (DocumentType_value TECHNICAL, TECHNICAL_TEMPLATE);
   (DocumentType_value LEGAL, LEGAL_TEMPLATE);
   (DocumentType_value GENERAL, GENERAL_TEMPLATE)].

(** [TEMPLATES.get(doc_type, GENERAL_TEMPLATE)]; the tag is any [str]. *)
Definition get_template (doc_type : string) : ExtractionTemplate :=
  get_or TEMPLATES doc_type GENERAL_TEMPLATE.

(** ** The report generator *)

(** The [orders] table of [_get_category_order]. *)
Definition orders : list (string * list (string * Z)) :=
  [(DocumentType_value STORY,
    [("character", 1); ("plot_point", 2); ("theme", 3); ("setting", 4);
     ("moral", 5)]);
   (DocumentType_value MEETING,
    [("speaker", 1); ("decision", 2); ("action_item", 3); ("agenda_item", 4);
     ("discussion_point", 5)]);
   (DocumentType_value RESEARCH,
    [("author", 1); ("research_question", 2); ("finding", 3);
     ("methodology", 4); ("conclusion", 5); ("citation", 6)]);
   (DocumentType_value TECHNICAL,
    [("component", 1); ("function", 2); ("parameter", 3);
     ("configuration", 4); ("dependency", 5); ("example", 6)]);
   (DocumentType_value LEGAL,
    [("party", 1); ("obligation", 2); ("clause", 3); ("deadline", 4);
     ("term", 5); ("penalty", 6)]);
   (DocumentType_value GENERAL,
    [("entity", 1); ("key_point", 2); ("topic", 3); ("statement", 4);
     ("date", 5)])]%string.

(** [orders.get(doc_type, {})] *)
Definition _get_category_order (doc_type : string) : list (string * Z) :=
  get_or orders doc_type [].

(** Lines 129-133 (and 243-245): entities grouped by class, classes in the
    order of their first entity. *)
Definition class_step (grouped : list (string * list Extraction))
  (e : Extraction) : list (string * list Extraction) :=
  ODict.set grouped (extraction_class e)
    (get_or grouped (extraction_class e) [] ++ [e]).

Definition group_by_class (extractions : list Extraction)
  : list (string * list Extraction) :=
  fold_left class_step extractions [].

(** [(x.attributes or {}).get('mention_count', 1)], the sort key of lines
    190 and 317.  A truthy [attributes] that is not a mapping has no [get]. *)
Definition mention_key (x : Extraction) : option value :=
  match attributes x with
  | AttrNone => Some (VInt 1)
  | AttrDict d => Some (get_or d "mention_count"%string (VInt 1))
  | AttrOther v => if truthy v then None else Some (VInt 1)
  end.

(** One insertion of the descending stable sort: [x] goes in front of the
    first element whose key is not greater than its own.  A comparison that
    raises makes the whole sort raise. *)
Fixpoint insert_desc {A} (kx : value) (x : A) (l : list (value * A))
  : option (list (value * A)) :=
  match l with
  | [] => Some [(kx, x)]
  | (ky, y) :: r =>
      match py_lt kx ky with
      | None => None
      | Some true =>
          match insert_desc kx x r with
          | None => None
          | Some r' => Some ((ky, y) :: r')
          end
      | Some false => Some ((kx, x) :: l)
      end
  end.

Fixpoint sort_desc {A} (l : list (value * A)) : option (list (value * A)) :=
  match l with
  | [] => Some []
  | (k, x) :: r =>
      match sort_desc r with
      | None => None
      | Some r' => insert_desc k x r'
      end
  end.

(** [sorted(items, key=lambda x: (x.attributes or {}).get('mention_count',
    1), reverse=True)].  The keys are computed first; the sort succeeds
    when there is at most one item or all keys are comparable. *)
Definition sorted_by_mentions (items : list Extraction)
  : option (list Extraction) :=
  match traverse (fun x => option_map (fun k => (k, x)) (mention_key x))
          items with
  | None => None
  | Some keyed => option_map (map snd) (sort_desc keyed)
  end.

(** Lines 198-201: [item_attrs.get('mention_count', 0) > 1], which raises
    for a count that is not a number. *)
Definition mentioned_more_than_once (item : Extraction) : option bool :=
  match attributes item with
  | AttrNone => Some false
  | AttrDict d => py_lt (VInt 1) (get_or d "mention_count"%string (VInt 0))
  | AttrOther v => if truthy v then None else Some false
  end.

(** [category_order.get(cls, 999)] *)
Definition rank (category_order : list (string * Z)) (cls : string) : Z :=
  get_or category_order cls 999.

(** Lines 169-218: the classes in display order, each with its entities in
    display order.  [None] when the loop raises. *)
Definition detailed_sections (doc_type : string)
  (extractions : list Extraction)
  : option (list (string * list Extraction)) :=
  let grouped := group_by_class extractions in
  let category_order := _get_category_order doc_type in
  let sorted_categories :=
    py_sorted (fun a b => rank category_order (fst a)
                          <=? rank category_order (fst b)) grouped in
  traverse
    (fun ci : string * list Extraction =>
       match sorted_by_mentions (snd ci) with
       | None => None
       | Some sorted_items =>
           match traverse mentioned_more_than_once sorted_items with
           | None => None
           | Some _ => Some (fst ci, sorted_items)
           end
       end)
    sorted_categories.

(** [len(grouped.get(cls, []))] *)
Definition class_count (grouped : list (string * list Extraction))
  (cls : string) : Z :=
  Z.of_nat (List.length (get_or grouped cls [])).

Section Rendering.

(** Floats are not modelled: [float] is the type of confidences and
    [format_percent0 x] the text of [f"{x:.0%}"]. *)
Variable float : Type.
Variable format_percent0 : float -> string.

(** [str.title], whose results leave U+0000..U+00FF for some letters. *)
Variable title : string -> string.

(** The bullet literal of line 165 of [analyze.py], which lies outside
    U+0000..U+00FF. *)
Variable bullet : string.

Record ClassificationResult : Type := mkClassification {
  document_type : DocumentType;
  confidence : float;
  reasoning : string
}.

(** The paragraph of lines 248-293. *)
Definition type_paragraph (doc_type : DocumentType)
  (grouped : list (string * list Extraction)) (extractions : list Extraction)
  : string :=
  let n c := str_of_Z (class_count grouped c) in
  (match doc_type with
   | STORY =>
       "The narrative features " ++ n "character" ++ " main character(s) and explores "
       ++ n "theme" ++ " central theme(s). "
       ++ "The story presents a compelling narrative with well-defined characters and meaningful themes."
   | MEETING =>
       "The meeting involved " ++ n "speaker" ++ " participant(s) and resulted in "
       ++ n "decision" ++ " key decision(s) "
       ++ "with " ++ n "action_item" ++ " action item(s) identified for follow-up."
   | RESEARCH =>
       "This research paper presents " ++ n "finding" ++ " significant finding(s). "
       ++ "The study employs rigorous methodology and contributes valuable insights to the field."
   | TECHNICAL =>
       "The technical documentation covers " ++ n "component" ++ " component(s) and "
       ++ n "function" ++ " function(s), "
       ++ "providing comprehensive guidance for implementation and usage."
   | LEGAL =>
       "This legal document involves " ++ n "party" ++ " party/parties with "
       ++ n "obligation" ++ " defined obligation(s). "
       ++ "The document establishes clear terms and responsibilities for all parties involved."
   | GENERAL =>
       "The document contains "
       ++ str_of_Z (Z.of_nat (List.length extractions))
       ++ " key entities and insights. "
       ++ "Analysis reveals important information across multiple categories."
   end)%string.

Definition _generate_executive_summary (extractions : list Extraction)
  (doc_type : DocumentType) (classification : ClassificationResult)
  (document_text : string) : list string :=
  let grouped := group_by_class extractions in
  [("This document has been classified as a <b>"
    ++ upper (DocumentType_value doc_type) ++ "</b> "
    ++ "with " ++ format_percent0 (confidence classification)
    ++ " confidence. " ++ reasoning classification)%string;
   type_paragraph doc_type grouped extractions;
   ("In total, " ++ str_of_Z (Z.of_nat (List.length extractions))
    ++ " unique entities were identified across "
    ++ str_of_Z (Z.of_nat (List.length grouped)) ++ " categories, "
    ++ "providing a comprehensive understanding of the document's content and context.")%string].

(** [cls.replace('_', ' ').title()] *)
Definition display_name (cls : string) : string :=
  title (replace_char "_" " " cls).

(** The line of one class, lines 311-334; the sort of line 315 runs (and
    may raise) whatever the number of items. *)
Definition insight_line (ci : string * list Extraction)
  : option (list string) :=
  let '(cls, items) := ci in
  match items with
  | [] => Some []
  | first :: _ =>
      match sorted_by_mentions items with
      | None => None
      | Some sorted_items =>
          let top_items := firstn 3 sorted_items in
          let n := Z.of_nat (List.length items) in
          Some
            [if n =? 1 then
               (display_name cls ++ ": " ++ extraction_text first)%string
             else if n <=? 3 then
               (display_name cls ++ ": "
                ++ join ", " (map extraction_text items))%string
             else
               (display_name cls ++ " (" ++ str_of_Z n ++ " total): "
                ++ join ", " (map extraction_text top_items)
                ++ ", and others")%string]
      end
  end.

Definition _generate_key_insights (grouped : list (string * list Extraction))
  (doc_type : DocumentType) : option (list string) :=
  option_map (@List.concat string) (traverse insight_line grouped).

(** [_generate_summary] of [analyze.py]. *)
Definition _generate_summary (extractions : list Extraction)
  (doc_type : DocumentType) : string :=
  match extractions with
  | [] => "No significant insights extracted from the document."
  | _ =>
      let count_by_class :=
        fold_left
          (fun (m : list (string * Z)) e =>
             ODict.set m (extraction_class e)
               (get_or m (extraction_class e) 0 + 1))
          extractions [] in
      join " "
        ([("Analyzed as " ++ upper (DocumentType_value doc_type)
           ++ " document.")%string;
          ("Extracted " ++ str_of_Z (Z.of_nat (List.length extractions))
           ++ " entities:")%string]
         ++ map (fun cc : string * Z =>
                   (bullet ++ " " ++ str_of_Z (snd cc) ++ " " ++ fst cc
                    ++ "(s)")%string)
                count_by_class)
  end.

End Rendering.

Arguments mkClassification {float}.
Arguments document_type {float}.
Arguments confidence {float}.
Arguments reasoning {float}.
Arguments _generate_executive_summary {float}.

(** ** Notions used to state the properties *)

(** The distinct elements of a list, in the order of their first
    occurrence. *)
Fixpoint distinct {K} `{EqKey K} (l : list K) : list K :=
  match l with
  | [] => []
  | x :: r => x :: filter (fun y => negb (keqb x y)) (distinct r)
  end.

(** The normalized strings of the values one map holds for [key] that pass
    the truth test [if value:] of line 120 (a well-formed map holds at most
    one): [None], the empty string, [0] and [False] are left out. *)
Definition values_of (key : string) (attrs : dict) : list string :=
  flat_map
    (fun kv : string * value =>
       if keqb (fst kv) key && truthy (snd kv) then [py_str (snd kv)] else [])
    attrs.

(** The distinct normalized values seen for [key] across maps, among
    those that pass the truth test. *)
Definition distinct_values (key : string) (all_attributes : list dict)
  : list string :=
  distinct (flat_map (values_of key) all_attributes).

(** The raw entities of one identity, in input order, and their number. *)
Definition members (k : ident) (l : list Extraction) : list Extraction :=
  filter (fun x => keqb (key_of x) k) l.

Definition mentions_in (k : ident) (l : list Extraction) : Z :=
  Z.of_nat (List.length (members k l)).

(** The group the grouping loop holds for an identity that occurs in the
    input: its first member, the number of members, and the non-empty
    attribute dictionaries of the members in input order. *)
Definition group_of (l : list Extraction) (k : ident) : group :=
  mkGroup (hd_error (members k l)) (mentions_in k l)
          (flat_map (fun x => contributed (attributes x)) (members k l)).

Definition ident_eq_dec (a b : ident) : {a = b} + {a <> b}.
Proof. decide equality; apply string_dec. Defined.

(** The value an entity's attribute dictionary holds for a key, if any. *)
Definition attr_get (e : Extraction) (k : string) : option value :=
  match attributes e with
  | AttrDict d => ODict.get d k
  | _ => None
  end.

(** The mention count an entity is ranked by: its [mention_count]
    attribute, and 1 when it has none. *)
Definition mentions (e : Extraction) : Z :=
  match attr_get e "mention_count"%string with
  | Some v => match py_int v with Some n => n | None => 1 end
  | None => 1
  end.

(** Entities as the de-duplicator emits them: the attributes are [None] or
    a dictionary (or a falsy non-mapping), and a [mention_count], when
    present, is a number. *)
Definition countable (e : Extraction) : bool :=
  match attributes e with
  | AttrNone => true
  | AttrDict d =>
      match ODict.get d "mention_count"%string with
      | Some v => match py_int v with Some _ => true | None => false end
      | None => true
      end
  | AttrOther v => negb (truthy v)
  end.

(** The sort key of an entity as a value (1 when the key cannot be
    computed). *)
Definition mkey (x : Extraction) : value :=
  match mention_key x with Some v => v | None => VInt 1 end.

(** "Not fewer mentions than": the order of the entities of a class. *)
Definition by_mentions_desc (x y : Extraction) : bool :=
  mentions y <=? mentions x.

(** The members of one class, in input order. *)
Definition of_class (cls : string) (l : list Extraction) : list Extraction :=
  filter (fun x => keqb (extraction_class x) cls) l.

(** *** Rules as the specification words them, for comparison *)

(** Case folding of one character of Latin-1, as code points:
    [str.casefold] does what [str.lower] does, except that the sharp s
    (U+00DF) becomes [ss] and the micro sign (U+00B5) becomes the Greek
    small mu (U+03BC). *)
Definition casefold_char (c : ascii) : list N :=
  let n := N_of_ascii c in
  if (n =? 223)%N then [115; 115]%N
  else if (n =? 181)%N then [956]%N
  else [N_of_ascii (lower_char c)].

Fixpoint casefold (s : string) : list N :=
  match s with
  | EmptyString => []
  | String c r => casefold_char c ++ casefold r
  end.

(** The identity of an entity as worded: the class as it is, with the
    text trimmed and case-folded. *)
Definition folded_ident : Type := string * list N.

Definition folded_key_of (e : Extraction) : folded_ident :=
  (extraction_class e, casefold (strip (extraction_text e))).

Definition folded_ident_eq_dec (a b : folded_ident) : {a = b} + {a <> b}.
Proof.
  decide equality; [apply (list_eq_dec N.eq_dec) | apply string_dec].
Defined.

(** The identity rule as worded: the de-duplicator returns as many
    entities as the input has distinct (class, case-folded trimmed text)
    pairs. *)
Definition one_entity_per_folded_identity_as_stated (l : list Extraction)
  : Prop :=
  exists out,
    _deduplicate_extractions l = Some out
    /\ List.length out
       = List.length (nodup folded_ident_eq_dec (map folded_key_of l)).

(** Two spellings of one street name: the second is the upper-case form
    of the first, whose fifth letter is the sharp s. *)
Definition street_spelled_twice : list Extraction :=
  [mkExtraction "location" ("Stra" ++ String "223"%char "e") AttrNone;
   mkExtraction "location" "STRASSE" AttrNone]%string.

(** A value carries information, as worded, unless it is absent or the
    empty string: numbers and booleans always do. *)
Definition nonempty_as_stated (v : value) : bool :=
  match v with
  | VNone => false
  | VStr EmptyString => false
  | _ => true
  end.

Definition values_of_as_stated (key : string) (attrs : dict) : list string :=
  flat_map
    (fun kv : string * value =>
       if keqb (fst kv) key && nonempty_as_stated (snd kv)
       then [py_str (snd kv)] else [])
    attrs.

Definition distinct_values_as_stated (key : string)
  (all_attributes : list dict) : list string :=
  distinct (flat_map (values_of_as_stated key) all_attributes).

(** The variation rule as worded: the companion key is written exactly
    when the key has more than one distinct non-empty value, and holds
    those values sorted and joined. *)
Definition variations_rule_as_stated (l : list dict) (key : string) : Prop :=
  let D := distinct_values_as_stated key l in
  ODict.get (_merge_attributes l) (variations_key key)
  = (if Z.of_nat (List.length D) >? 1
     then Some (VStr (join ", " (py_sorted String.leb D)))
     else ODict.get (List.concat l) (variations_key key)).

(** The mention-count rule as worded: a group of one never carries the
    key, a larger group carries the raw count. *)
Definition mention_count_rule_as_stated (l : list Extraction) : Prop :=
  forall out e,
    _deduplicate_extractions l = Some out -> In e out ->
    (mentions_in (key_of e) l = 1 ->
     attr_get e "mention_count"%string = None) /\
    (1 < mentions_in (key_of e) l ->
     attr_get e "mention_count"%string
     = Some (VInt (mentions_in (key_of e) l))).

(** The highest index below [bound] holding a whitespace character. *)
Fixpoint last_whitespace_from (s : string) (i found : Z) (bound : Z) : Z :=
  match s with
  | EmptyString => found
  | String a r =>
      if i <? bound
      then last_whitespace_from r (i + 1) (if is_space a then i else found)
             bound
      else found
  end.

(** The truncation policy as worded: texts of at most 8000 characters are
    kept; a longer one is cut at the last whitespace character among the
    200 characters before position 4000, and at position 4000 when there
    is none. *)
Definition truncate_as_stated (text : string) : string :=
  if len text <=? 8000 then text
  else
    let p := last_whitespace_from text 0 (-1) 4000 in
    if 4000 - 200 <=? p then slice_to text p else slice_to text 4000.

(** [c * n] *)
Fixpoint replicate (n : nat) (c : ascii) : string :=
  match n with
  | O => EmptyString
  | S n' => String c (replicate n' c)
  end.

(** A text of 8001 characters, one word broken by a single line feed at
    index 3900, with no space character anywhere. *)
Definition text_with_line_feed : string :=
  (replicate 3900 "a" ++ String (ascii_of_nat 10) (replicate 4100 "a"))%string.

(** The same text with a space in place of the line feed. *)
Definition text_with_space : string :=
  (replicate 3900 "a" ++ String " " (replicate 4100 "a"))%string.

(** The entities of the end-to-end scenario of the meeting schema, after
    de-duplication, with the decision met before the speaker. *)
Definition meeting_entities : list Extraction :=
  [mkExtraction "decision" "Approve budget" (AttrDict []);
   mkExtraction "speaker" "Ann" (AttrDict []);
   mkExtraction "speaker" "John"
     (AttrDict [("mention_count", VInt 2)])]%string.

(** The registry fallback as worded: a tag that is no member of
    [DocumentType] gets the general template and the general priorities. *)
Definition registry_fallback_as_stated : Prop :=
  forall tag : string,
    (forall d, tag <> DocumentType_value d) ->
    get_template tag = get_template (DocumentType_value GENERAL) /\
    _get_category_order tag = _get_category_order (DocumentType_value GENERAL).

(** ** The classifier: [_map_category] and the reply parsing of
    [classify_document] *)

(** [mapping.get(category_str, DocumentType.GENERAL)] *)
Definition _map_category (category_str : string) : DocumentType :=
  get_or
    [("STORY", STORY); ("MEETING", MEETING); ("RESEARCH", RESEARCH);
     ("TECHNICAL", TECHNICAL); ("LEGAL", LEGAL); ("GENERAL", GENERAL)]%string
    category_str GENERAL.

(** [s.split(c)] for a one-character separator; the empty string gives one
    empty piece. *)
Fixpoint split_char (c : ascii) (s : string) : list string :=
  match s with
  | EmptyString => [EmptyString]
  | String a r =>
      if Ascii.eqb a c then EmptyString :: split_char c r
      else
        match split_char c r with
        | [] => [String a EmptyString]
        | p :: ps => String a p :: ps
        end
  end.

(** [s.split(c, 1)[1]]: what follows the first [c]; [None] is the
    [IndexError] raised when [c] does not occur. *)
Fixpoint after_first (c : ascii) (s : string) : option string :=
  match s with
  | EmptyString => None
  | String a r => if Ascii.eqb a c then Some r else after_first c r
  end.

Section Classifier.

(** Floats are not modelled: [parse_float s] is [float(s)] ([None] when it
    raises), and the literals [0.7] and [0.5] are parameters.  [str_upper]
    is [str.upper], whose results leave U+0000..U+00FF for three letters. *)
Variable float : Type.
Variable parse_float : string -> option float.
Variable default_confidence : float.
Variable fallback_confidence : float.
Variable str_upper : string -> string.

(** The local variables [category], [confidence], [reasoning]. *)
Record parse_state : Type := mkParseState {
  ps_category : option DocumentType;
  ps_confidence : float;
  ps_reasoning : string
}.

(** Body of the loop of lines 58-68. *)
Definition parse_line (st : parse_state) (line : string)
  : option parse_state :=
  if String.prefix "CATEGORY:" line then
    match after_first ":" line with
    | None => None
    | Some rest =>
        Some (mkParseState
                (Some (_map_category (str_upper (strip rest))))
                (ps_confidence st) (ps_reasoning st))
    end
  else if String.prefix "CONFIDENCE:" line then
    match after_first ":" line with
    | None => None
    | Some rest =>
        Some (mkParseState (ps_category st)
                (match parse_float (strip rest) with
                 | Some f => f
                 | None => default_confidence
                 end)
                (ps_reasoning st))
    end
  else if String.prefix "REASONING:" line then
    match after_first ":" line with
    | None => None
    | Some rest =>
        Some (mkParseState (ps_category st) (ps_confidence st) (strip rest))
    end
  else Some st.

(** The loop run from a given state. *)
Definition parse_from (st : parse_state) (lines : list string)
  : option parse_state :=
  fold_left
    (fun st line =>
       match st with
       | None => None
       | Some s => parse_line s line
       end)
    lines (Some st).

Definition parse_lines (lines : list string) : option parse_state :=
  fold_left
    (fun st line =>
       match st with
       | None => None
       | Some s => parse_line s line
       end)
    lines (Some (mkParseState None default_confidence EmptyString)).

(** The [except] branch of lines 80-86. *)
Definition classification_fallback (message : string)
  : ClassificationResult float :=
  mkClassification GENERAL fallback_confidence
    ("Classification failed, using fallback: " ++ message)%string.

(** Lines 53-86 of [classify_document], from the outcome of the model call:
    [inr text] when it returns [response.text], [inl message] when it
    raises an exception whose [str()] is [message]. *)
Definition classify_response (response : string + string)
  : ClassificationResult float :=
  match response with
  | inl message => classification_fallback message
  | inr text =>
      match parse_lines (split_char "010" (strip text)) with
      | None => classification_fallback "list index out of range"
      | Some st =>
          match ps_category st with
          | None =>
              mkClassification GENERAL (ps_confidence st)
                "Unable to determine specific category"
          | Some category =>
              mkClassification category (ps_confidence st) (ps_reasoning st)
          end
      end
  end.

End Classifier.

Arguments mkParseState {float}.
Arguments ps_category {float}.
Arguments ps_confidence {float}.
Arguments ps_reasoning {float}.
Arguments parse_line {float}.
Arguments parse_from {float}.
Arguments parse_lines {float}.
Arguments classification_fallback {float}.
Arguments classify_response {float}.

(** ** The document parser and the upload checks *)

(** [settings.ALLOWED_EXTENSIONS] *)
Definition ALLOWED_EXTENSIONS : list string :=
  [".pdf"; ".docx"; ".txt"]%string.

(** [file_ext in settings.ALLOWED_EXTENSIONS], the test of [analyze_document]
    on the lower-cased extension. *)
Definition extension_allowed (file_ext : string) : bool :=
  existsb (keqb file_ext) ALLOWED_EXTENSIONS.

Inductive parse_outcome : Type :=
  | Parsed (text : string)
  | ValueError (message : string).

(** The separator ["\n\n"]. *)
Definition blank_line : string := String "010" (String "010" EmptyString).

(** [_parse_pdf], from what [page.extract_text()] gives for each page
    ([None] for a page without text). *)
Definition _parse_pdf (pages : list (option string)) : string :=
  join blank_line
    (flat_map
       (fun page_text : option string =>
          match page_text with
          | Some t => if String.eqb t EmptyString then [] else [t]
          | None => []
          end)
       pages).

(** [_parse_docx], from the texts of the paragraphs. *)
Definition _parse_docx (paragraphs : list string) : string :=
  join blank_line
    (filter (fun t => negb (String.eqb (strip t) EmptyString)) paragraphs).

Section Parser.

(** What the libraries read from a path; failures of the file system and of
    the decoders are not modelled. *)
Variable pdf_pages : string -> list (option string).
Variable docx_paragraphs : string -> list string.
Variable txt_content : string -> string.

Definition parse_document (file_path file_ext : string) : parse_outcome :=
  if String.eqb file_ext ".pdf" then Parsed (_parse_pdf (pdf_pages file_path))
  else if String.eqb file_ext ".docx"
  then Parsed (_parse_docx (docx_paragraphs file_path))
  else if String.eqb file_ext ".txt" then Parsed (txt_content file_path)
  else ValueError ("Unsupported file extension: " ++ file_ext)%string.

End Parser.

(** [not text or len(text.strip()) < 50], the emptiness test of
    [analyze_document]. *)
Definition too_short (text : string) : bool :=
  String.eqb text EmptyString || (len (strip text) <? 50).

(** ** More of the report generator and of the analyze route *)

(** The [count_by_class] dictionary of [_generate_summary]. *)
Definition count_by_class (extractions : list Extraction)
  : list (string * Z) :=
  fold_left
    (fun (m : list (string * Z)) e =>
       ODict.set m (extraction_class e)
         (get_or m (extraction_class e) 0 + 1))
    extractions [].

(** ** Further notions used to state properties *)

Definition sum_Z (l : list Z) : Z := fold_right Z.add 0 l.

(** The value of the first map that holds [key]. *)
Fixpoint first_value (key : string) (all_attributes : list dict)
  : option value :=
  match all_attributes with
  | [] => None
  | attrs :: rest =>
      match ODict.get attrs key with
      | Some v => Some v
      | None => first_value key rest
      end
  end.

(** A raw entity whose own [mention_count] attribute, if it has one, is a
    number. *)
Definition raw_count_numeric (e : Extraction) : bool :=
  match attributes e with
  | AttrDict d =>
      match ODict.get d "mention_count"%string with
      | Some v => match py_int v with Some _ => true | None => false end
      | None => true
      end
  | _ => true
  end.

(** The key-insight line of a class with the given entities. *)
Definition insight_of (title : string -> string) (cls : string)
  (items : list Extraction) : string :=
  let n := Z.of_nat (List.length items) in
  if n <=? 3 then
    (display_name title cls ++ ": "
     ++ join ", " (map extraction_text items))%string
  else
    (display_name title cls ++ " (" ++ str_of_Z n ++ " total): "
     ++ join ", "
          (map extraction_text
             (firstn 3 (py_sorted by_mentions_desc items)))
     ++ ", and others")%string.

(** * Properties *)

(** ** Key equality *)

#[export] Instance EqKeyLaws_string : EqKeyLaws string.
Proof. constructor. exact String.eqb_spec. Qed.

#[export] Instance EqKeyLaws_pair {A B} `{EqKeyLaws A} `{EqKeyLaws B}
  : EqKeyLaws (A * B).
Proof.
  constructor. intros [a b] [c d]. simpl.
  destruct (keqb_spec a c) as [->|Hac]; simpl.
  - destruct (keqb_spec b d) as [->|Hbd]; constructor; congruence.
  - constructor; congruence.
Qed.

Section KeyFacts.
Context {K : Type} `{EqKeyLaws K}.

Lemma keqb_refl (k : K) : keqb k k = true.
Proof. destruct (keqb_spec k k); congruence. Qed.

Lemma keqb_neq (a b : K) : a <> b -> keqb a b = false.
Proof. intro Hn. destruct (keqb_spec a b); congruence. Qed.

Lemma keqb_eq (a b : K) : keqb a b = true -> a = b.
Proof. destruct (keqb_spec a b); congruence. Qed.

Lemma keqb_sym (a b : K) : keqb a b = keqb b a.
Proof.
  destruct (keqb_spec a b) as [->|Hn].
  - now rewrite keqb_refl.
  - symmetry. apply keqb_neq. congruence.
Qed.

Lemma existsb_keqb_In (y : K) (l : list K) :
  existsb (keqb y) l = true <-> In y l.
Proof.
  rewrite existsb_exists. split.
  - intros [x [Hx E]]. apply keqb_eq in E. now subst.
  - intro Hy. exists y. split; auto. apply keqb_refl.
Qed.

Lemma existsb_keqb_ext (y : K) (l l' : list K) :
  (In y l <-> In y l') -> existsb (keqb y) l = existsb (keqb y) l'.
Proof.
  intro Hiff. apply eq_true_iff_eq. now rewrite !existsb_keqb_In.
Qed.

(** *** [distinct] *)

Lemma In_distinct (x : K) (l : list K) : In x (distinct l) <-> In x l.
Proof.
  induction l as [|a r IH]; simpl; [tauto|].
  rewrite filter_In, IH, negb_true_iff.
  destruct (keqb_spec a x) as [E|Hn].
  - split; intros _; now left.
  - split.
    + intros [E|[Hr _]]; [congruence | now right].
    + intros [E|Hr]; [congruence | right; split; auto].
Qed.

Lemma NoDup_distinct (l : list K) : NoDup (distinct l).
Proof.
  induction l as [|a r IH]; simpl; constructor.
  - rewrite filter_In, keqb_refl. simpl. intros [_ E]. discriminate.
  - now apply NoDup_filter.
Qed.

Lemma distinct_snoc (l : list K) (y : K) :
  distinct (l ++ [y])
  = if existsb (keqb y) l then distinct l else distinct l ++ [y].
Proof.
  induction l as [|a r IH]; simpl; auto.
  rewrite IH. rewrite (keqb_sym y a).
  destruct (keqb_spec a y) as [->|Hn]; simpl.
  - destruct (existsb (keqb y) r); auto.
    rewrite filter_app. simpl. rewrite keqb_refl. simpl.
    now rewrite app_nil_r.
  - destruct (existsb (keqb y) r); auto.
    rewrite filter_app. simpl. now rewrite keqb_neq by assumption.
Qed.

Lemma distinct_id (l : list K) : NoDup l -> distinct l = l.
Proof.
  induction 1 as [|a r Hn Hd IH]; simpl; auto.
  rewrite IH. f_equal. apply forallb_filter_id. apply forallb_forall.
  intros x Hx. apply negb_true_iff, keqb_neq. congruence.
Qed.

End KeyFacts.

(** ** Dictionary facts *)

Section DictFacts.
Context {K V : Type} `{EqKeyLaws K}.
Implicit Types (d : list (K * V)) (k : K) (v : V).

Lemma get_set_same d k v : ODict.get (ODict.set d k v) k = Some v.
Proof.
  induction d as [|[k' v'] r IH]; simpl.
  - now rewrite keqb_refl.
  - destruct (keqb k' k) eqn:E; simpl; rewrite E; auto.
Qed.

Lemma get_set_other d k v k2 :
  k <> k2 -> ODict.get (ODict.set d k v) k2 = ODict.get d k2.
Proof.
  intro Hn. induction d as [|[k' v'] r IH]; simpl.
  - now rewrite keqb_neq.
  - destruct (keqb_spec k' k) as [->|Hk]; simpl.
    + now rewrite keqb_neq.
    + now rewrite IH.
Qed.

Lemma get_None_not_in d k : ODict.get d k = None <-> ~ In k (ODict.keys d).
Proof.
  induction d as [|[k' v'] r IH]; simpl.
  - tauto.
  - destruct (keqb_spec k' k) as [->|Hk].
    + split; [discriminate | intro Hc; exfalso; apply Hc; now left].
    + rewrite IH. tauto.
Qed.

Lemma mem_existsb d k : ODict.mem d k = existsb (keqb k) (ODict.keys d).
Proof.
  apply eq_true_iff_eq. rewrite existsb_keqb_In. unfold ODict.mem.
  destruct (ODict.get d k) eqn:E.
  - split; auto. intros _.
    destruct (in_dec (fun a b => reflect_dec _ _ (keqb_spec a b)) k
                (ODict.keys d)) as [Hi|Hn]; auto.
    apply get_None_not_in in Hn. congruence.
  - apply get_None_not_in in E. split; [discriminate | tauto].
Qed.

Lemma mem_false_not_in d k : ODict.mem d k = false <-> ~ In k (ODict.keys d).
Proof.
  rewrite mem_existsb, <- existsb_keqb_In.
  destruct (existsb (keqb k) (ODict.keys d)); split; congruence.
Qed.

Lemma set_new d k v :
  ~ In k (ODict.keys d) -> ODict.set d k v = d ++ [(k, v)].
Proof.
  induction d as [|[k' v'] r IH]; simpl; intro Hn; auto.
  destruct (keqb_spec k' k) as [->|Hk].
  - exfalso; apply Hn; now left.
  - rewrite IH; auto.
Qed.

Lemma keys_set d k v :
  ODict.keys (ODict.set d k v)
  = if ODict.mem d k then ODict.keys d else ODict.keys d ++ [k].
Proof.
  destruct (ODict.mem d k) eqn:E.
  - rewrite mem_existsb in E. apply existsb_keqb_In in E.
    induction d as [|[k' v'] r IH]; simpl in *; [tauto|].
    destruct (keqb_spec k' k) as [->|Hk]; simpl; auto.
    f_equal. apply IH. destruct E; congruence.
  - apply mem_false_not_in in E. rewrite set_new by assumption.
    unfold ODict.keys. now rewrite map_app.
Qed.

Lemma NoDup_snoc {A} (l : list A) (x : A) :
  NoDup l -> ~ In x l -> NoDup (l ++ [x]).
Proof.
  intros Hd Hn. apply NoDup_rev in Hd.
  rewrite <- (rev_involutive (l ++ [x])). apply NoDup_rev.
  rewrite rev_app_distr. simpl. constructor; auto. now rewrite <- in_rev.
Qed.

Lemma wf_set d k v : ODict.wf d -> ODict.wf (ODict.set d k v).
Proof.
  unfold ODict.wf. rewrite keys_set. destruct (ODict.mem d k) eqn:E; auto.
  intro Hd. apply mem_false_not_in in E. now apply NoDup_snoc.
Qed.

Lemma wf_In_get d k v : ODict.wf d -> In (k, v) d -> ODict.get d k = Some v.
Proof.
  unfold ODict.wf. induction d as [|[k' v'] r IH]; simpl; [tauto|].
  intros Hd [E|Hi].
  - inversion E; subst. now rewrite keqb_refl.
  - inversion Hd as [|? ? Hn Hr]; subst.
    destruct (keqb_spec k' k) as [->|Hk]; auto.
    exfalso. apply Hn. change k with (fst (k, v)). now apply in_map.
Qed.

Lemma Forall_set (P : K * V -> Prop) d k v :
  Forall P d -> P (k, v) -> Forall P (ODict.set d k v).
Proof.
  intros Hd Hp. induction Hd as [|[k' v'] r Hx Hr IH]; simpl.
  - constructor; auto.
  - destruct (keqb_spec k' k) as [->|Hk]; constructor; auto.
Qed.

End DictFacts.

(** ** Sorting facts *)

Section SortFacts.
Context {A : Type} (le : A -> A -> bool).

Lemma insert_sorted_perm (x : A) (l : list A) :
  Permutation (insert_sorted le x l) (x :: l).
Proof.
  induction l as [|y r IH]; simpl; auto.
  destruct (le x y); auto.
  rewrite IH. apply perm_swap.
Qed.

Lemma py_sorted_perm (l : list A) : Permutation (py_sorted le l) l.
Proof.
  induction l as [|x r IH]; simpl; auto.
  rewrite insert_sorted_perm. now constructor.
Qed.

Hypothesis le_total : forall a b, le a b = true \/ le b a = true.
Hypothesis le_trans :
  forall a b c, le a b = true -> le b c = true -> le a c = true.

Lemma insert_sorted_sorted (x : A) (l : list A) :
  StronglySorted (fun a b => le a b = true) l ->
  StronglySorted (fun a b => le a b = true) (insert_sorted le x l).
Proof.
  induction 1 as [|y r Hs IH Hy]; simpl.
  - repeat constructor.
  - destruct (le x y) eqn:E.
    + constructor; [now constructor|].
      constructor; auto.
      eapply Forall_impl; [|exact Hy]. intros z Hz. eapply le_trans; eauto.
    + constructor; auto.
      eapply Permutation_Forall.
      * symmetry. apply insert_sorted_perm.
      * constructor; auto. destruct (le_total x y); congruence.
Qed.

Lemma py_sorted_sorted (l : list A) :
  StronglySorted (fun a b => le a b = true) (py_sorted le l).
Proof.
  induction l as [|x r IH]; simpl; [constructor|].
  now apply insert_sorted_sorted.
Qed.

End SortFacts.

(** A stable sort keeps the relative order of the elements of every class
    whose members are mutually not greater than one another. *)
Lemma filter_insert_sorted {A} (le : A -> A -> bool) (p : A -> bool) x l :
  (forall a b, p a = true -> p b = true -> le a b = true) ->
  filter p (insert_sorted le x l) = filter p (x :: l).
Proof.
  intro Hp. induction l as [|y r IH]; simpl; auto.
  destruct (le x y) eqn:E; simpl; auto.
  rewrite IH. simpl.
  destruct (p x) eqn:Px, (p y) eqn:Py; auto.
  rewrite (Hp x y Px Py) in E. discriminate.
Qed.

Lemma filter_py_sorted {A} (le : A -> A -> bool) (p : A -> bool) l :
  (forall a b, p a = true -> p b = true -> le a b = true) ->
  filter p (py_sorted le l) = filter p l.
Proof.
  intro Hp. induction l as [|x r IH]; simpl; auto.
  rewrite filter_insert_sorted by assumption. simpl. now rewrite IH.
Qed.

Lemma sorted_perm_unique {A} (R : A -> A -> Prop) (l1 l2 : list A) :
  (forall a b, R a b -> R b a -> a = b) ->
  StronglySorted R l1 -> StronglySorted R l2 -> Permutation l1 l2 ->
  l1 = l2.
Proof.
  intros Hanti H1. revert l2.
  induction H1 as [|a r1 Hs1 IH Ha]; intros l2 H2 Hp.
  - now apply Permutation_nil in Hp.
  - destruct H2 as [|b r2 Hs2 Hb].
    + symmetry in Hp. now apply Permutation_nil in Hp.
    + assert (a = b) as ->.
      { assert (Hin1 : In a (b :: r2))
          by (eapply Permutation_in; [exact Hp | now left]).
        assert (Hin2 : In b (a :: r1))
          by (eapply Permutation_in; [symmetry; exact Hp | now left]).
        destruct Hin1 as [E|Hin1]; [now subst|].
        destruct Hin2 as [E|Hin2]; [now subst|].
        rewrite Forall_forall in Ha, Hb. apply Hanti; auto. }
      f_equal. apply IH; auto. eapply Permutation_cons_inv; eauto.
Qed.

(** ** String facts *)

Lemma string_compare_le_trans (a b c : string) :
  String.compare a b <> Gt -> String.compare b c <> Gt ->
  String.compare a c <> Gt.
Proof.
  revert b c. induction a as [|ca a IH]; intros [|cb b] [|cc c]; simpl;
    try congruence.
  unfold Ascii.compare.
  destruct (N.compare_spec (N_of_ascii ca) (N_of_ascii cb)) as [E1|L1|G1];
    destruct (N.compare_spec (N_of_ascii cb) (N_of_ascii cc)) as [E2|L2|G2];
    destruct (N.compare_spec (N_of_ascii ca) (N_of_ascii cc)) as [E3|L3|G3];
    try congruence; try lia; eauto.
Qed.

Lemma string_leb_trans (a b c : string) :
  String.leb a b = true -> String.leb b c = true -> String.leb a c = true.
Proof.
  unfold String.leb. intros Hab Hbc.
  pose proof (string_compare_le_trans a b c) as Ht.
  destruct (String.compare a b); destruct (String.compare b c);
    destruct (String.compare a c); try discriminate; auto;
    exfalso; apply Ht; congruence.
Qed.

Lemma string_length_append (a b : string) :
  String.length (a ++ b) = (String.length a + String.length b)%nat.
Proof. induction a; simpl; auto. Qed.

Lemma string_append_inj_l (a b s : string) :
  (a ++ s)%string = (b ++ s)%string -> a = b.
Proof.
  revert b. induction a as [|c a IH]; intros [|c' b] E; simpl in E; auto.
  - apply (f_equal String.length) in E. simpl in E.
    rewrite string_length_append in E. lia.
  - apply (f_equal String.length) in E. simpl in E.
    rewrite string_length_append in E. lia.
  - inversion E; subst. f_equal. now apply IH.
Qed.

Lemma variations_key_inj (k1 k2 : string) :
  variations_key k1 = variations_key k2 -> k1 = k2.
Proof. apply string_append_inj_l. Qed.

Lemma mention_count_not_variations (k : string) :
  variations_key k <> "mention_count"%string.
Proof.
  unfold variations_key. intro E.
  assert (Hl : String.length k = 2%nat).
  { apply (f_equal String.length) in E. rewrite string_length_append in E.
    simpl in E. lia. }
  destruct k as [|a [|b [|c k]]]; simpl in Hl; discriminate.
Qed.

(** The sorted rendering of a set of strings does not depend on the order
    in which the set is listed. *)
Lemma sorted_strings_unique (l1 l2 : list string) :
  Permutation l1 l2 -> py_sorted String.leb l1 = py_sorted String.leb l2.
Proof.
  intro Hp.
  apply (sorted_perm_unique (fun a b => String.leb a b = true)).
  - apply String.leb_antisym.
  - apply py_sorted_sorted; [apply String.leb_total | apply string_leb_trans].
  - apply py_sorted_sorted; [apply String.leb_total | apply string_leb_trans].
  - rewrite !py_sorted_perm. exact Hp.
Qed.

(** ** The attribute merger *)

Lemma fold_merge_concat (l : list dict) (st : merge_state) :
  fold_left (fun st attrs => fold_left merge_item attrs st) l st
  = fold_left merge_item (List.concat l) st.
Proof.
  revert st. induction l as [|d r IH]; intro st; simpl; auto.
  now rewrite fold_left_app, IH.
Qed.

Lemma flat_map_concat {A B} (f : A -> list B) (l : list (list A)) :
  flat_map f (List.concat l) = flat_map (flat_map f) l.
Proof.
  induction l as [|d r IH]; simpl; auto.
  now rewrite flat_map_app, IH.
Qed.

(** The first loop keeps, for every key, the value of the first item that
    carries the key. *)
Lemma fold_merge_fst_get (items : dict) (st : merge_state) (k : string) :
  ODict.get (fst (fold_left merge_item items st)) k
  = match ODict.get (fst st) k with
    | Some v => Some v
    | None => ODict.get items k
    end.
Proof.
  revert st. induction items as [|[key v] r IH]; intros [m vs]; simpl.
  - now destruct (ODict.get m k).
  - rewrite IH. simpl. unfold ODict.mem.
    destruct (String.eqb_spec key k) as [->|Hn].
    + destruct (ODict.get m k) eqn:E; [now rewrite E|].
      now rewrite get_set_same.
    + destruct (ODict.get m key) eqn:E; auto.
      now rewrite get_set_other.
Qed.

Lemma vs_get_vs_add vs key s k :
  vs_get (vs_add vs key s) k
  = if keqb key k then set_add s (vs_get vs k) else vs_get vs k.
Proof.
  unfold vs_get, vs_add, get_or. simpl.
  destruct (String.eqb_spec key k) as [->|Hn].
  - now rewrite get_set_same.
  - now rewrite get_set_other.
Qed.

Lemma fold_merge_vs_get (items : dict) (st : merge_state) (k : string) :
  vs_get (snd (fold_left merge_item items st)) k
  = fold_left (fun acc s => set_add s acc) (values_of k items)
      (vs_get (snd st) k).
Proof.
  revert st. induction items as [|[key v] r IH]; intros [m vs]; simpl; auto.
  rewrite IH. unfold values_of. simpl. rewrite fold_left_app. f_equal.
  destruct (truthy v); simpl.
  - rewrite vs_get_vs_add. simpl. destruct (String.eqb key k); auto.
  - now rewrite andb_false_r.
Qed.

Lemma fold_set_add_distinct (l : list string) :
  fold_left (fun acc s => set_add s acc) l [] = distinct l.
Proof.
  induction l as [|y l IH] using rev_ind; simpl; auto.
  rewrite fold_left_app. simpl. rewrite IH, distinct_snoc.
  unfold set_add.
  rewrite (existsb_keqb_ext y (distinct l) l) by apply In_distinct.
  reflexivity.
Qed.

Lemma collect_vs_get (l : list dict) (k : string) :
  vs_get (snd (merge_collect l)) k = distinct_values k l.
Proof.
  unfold merge_collect, distinct_values.
  rewrite fold_merge_concat, fold_merge_vs_get. simpl.
  unfold vs_get at 1, get_or. simpl.
  rewrite fold_set_add_distinct. f_equal.
  unfold values_of. apply flat_map_concat.
Qed.

Lemma collect_fst_get (l : list dict) (k : string) :
  ODict.get (fst (merge_collect l)) k = ODict.get (List.concat l) k.
Proof.
  unfold merge_collect. now rewrite fold_merge_concat, fold_merge_fst_get.
Qed.

Lemma fold_merge_wf (items : dict) (st : merge_state) :
  ODict.wf (fst st) -> ODict.wf (snd st) ->
  ODict.wf (fst (fold_left merge_item items st))
  /\ ODict.wf (snd (fold_left merge_item items st)).
Proof.
  revert st. induction items as [|[key v] r IH]; intros [m vs] Hm Hv;
    simpl in *; auto.
  apply IH; simpl.
  - destruct (ODict.mem m key); auto. now apply wf_set.
  - destruct (truthy v); auto. now apply wf_set.
Qed.

Lemma collect_wf (l : list dict) :
  ODict.wf (fst (merge_collect l)) /\ ODict.wf (snd (merge_collect l)).
Proof.
  unfold merge_collect. rewrite fold_merge_concat.
  apply fold_merge_wf; constructor.
Qed.

(** The second loop writes exactly the companion keys of the keys whose
    set has more than one element. *)
Lemma fold_add_variation_get vs (m : dict) (k : string) :
  ODict.wf vs ->
  ODict.get (fold_left add_variation vs m) (variations_key k)
  = if Z.of_nat (List.length (vs_get vs k)) >? 1
    then Some (VStr (join ", " (py_sorted String.leb (vs_get vs k))))
    else ODict.get m (variations_key k).
Proof.
  unfold ODict.wf. revert m.
  induction vs as [|[k' vals] r IH]; intros m Hwf; simpl; auto.
  inversion Hwf as [|? ? Hn Hr]; subst.
  rewrite IH by assumption. unfold vs_get, get_or. simpl.
  destruct (String.eqb_spec k' k) as [->|Hk].
  - apply get_None_not_in in Hn. rewrite Hn. simpl.
    destruct (Z.of_nat (List.length vals) >? 1); auto.
    now rewrite get_set_same.
  - destruct (Z.of_nat
                (List.length
                   match ODict.get r k with Some v => v | None => [] end)
              >? 1); auto.
    destruct (Z.of_nat (List.length vals) >? 1); auto.
    rewrite get_set_other; auto.
    intro E. apply Hk. now apply variations_key_inj.
Qed.

Lemma fold_add_variation_other vs (m : dict) (key : string) :
  (forall k, variations_key k <> key) ->
  ODict.get (fold_left add_variation vs m) key = ODict.get m key.
Proof.
  intro Hk. revert m.
  induction vs as [|[k' vals] r IH]; intro m; simpl; auto.
  rewrite IH. destruct (Z.of_nat (List.length vals) >? 1); auto.
  now rewrite get_set_other.
Qed.


Lemma fold_add_variation_small vs (m : dict) :
  Forall (fun kv => (List.length (snd kv) <= 1)%nat) vs ->
  fold_left add_variation vs m = m.
Proof.
  induction 1 as [|[k vals] r Hx Hr IH]; simpl in *; auto.
  replace (Z.of_nat (List.length vals) >? 1) with false; auto.
  symmetry. rewrite Z.gtb_ltb. apply Z.ltb_ge. lia.
Qed.

Lemma merge_unfold (l : list dict) :
  _merge_attributes l
  = fold_left add_variation (snd (merge_collect l)) (fst (merge_collect l)).
Proof.
  destruct l as [|d r]; [reflexivity|].
  unfold _merge_attributes. now destruct (merge_collect (d :: r)).
Qed.

Lemma merge_get_variations (l : list dict) (k : string) :
  ODict.get (_merge_attributes l) (variations_key k)
  = if Z.of_nat (List.length (distinct_values k l)) >? 1
    then Some (VStr (join ", " (py_sorted String.leb (distinct_values k l))))
    else ODict.get (List.concat l) (variations_key k).
Proof.
  rewrite merge_unfold, fold_add_variation_get by apply collect_wf.
  now rewrite collect_vs_get, collect_fst_get.
Qed.

Lemma merge_get_other (l : list dict) (key : string) :
  (forall k, variations_key k <> key) ->
  ODict.get (_merge_attributes l) key = ODict.get (List.concat l) key.
Proof.
  intro Hk. rewrite merge_unfold, fold_add_variation_other by assumption.
  apply collect_fst_get.
Qed.


(** Merging one well-formed map gives the map back. *)
Lemma fold_merge_single (d m : dict) vs :
  NoDup (ODict.keys m ++ ODict.keys d) ->
  Forall (fun kv : string * list string =>
            In (fst kv) (ODict.keys m) /\ (List.length (snd kv) <= 1)%nat) vs ->
  fst (fold_left merge_item d (m, vs)) = m ++ d
  /\ Forall (fun kv : string * list string =>
               (List.length (snd kv) <= 1)%nat)
       (snd (fold_left merge_item d (m, vs))).
Proof.
  revert m vs. induction d as [|[key v] r IH]; intros m vs Hnd Hvs; simpl.
  - rewrite app_nil_r. split; auto.
    eapply Forall_impl; [|exact Hvs]. simpl. tauto.
  - assert (Hkey : ~ In key (ODict.keys m)).
    { intro Hi. simpl in Hnd. apply NoDup_remove_2 in Hnd. apply Hnd.
      apply in_or_app. now left. }
    assert (Hmem : ODict.mem m key = false) by now apply mem_false_not_in.
    rewrite Hmem, set_new by assumption.
    replace (m ++ (key, v) :: r) with ((m ++ [(key, v)]) ++ r)
      by now rewrite <- app_assoc.
    apply IH.
    + unfold ODict.keys in *. rewrite map_app, <- app_assoc. exact Hnd.
    + assert (Hvs' : Forall (fun kv : string * list string =>
                 In (fst kv) (ODict.keys (m ++ [(key, v)]))
                 /\ (List.length (snd kv) <= 1)%nat) vs).
      { eapply Forall_impl; [|exact Hvs]. simpl. intros a [Ha Hl].
        split; auto. unfold ODict.keys. rewrite map_app.
        apply in_or_app. now left. }
      destruct (truthy v); auto.
      unfold vs_add. apply Forall_set; auto. simpl. split.
      * unfold ODict.keys. rewrite map_app. apply in_or_app. right. now left.
      * assert (Hg : ODict.get vs key = None).
        { apply get_None_not_in. intro Hi. apply Hkey.
          unfold ODict.keys in Hi. apply in_map_iff in Hi.
          destruct Hi as [kv [E Hi]]. rewrite Forall_forall in Hvs.
          destruct (Hvs kv Hi) as [Hm _]. now rewrite <- E. }
        unfold vs_get, get_or. rewrite Hg. simpl. lia.
Qed.

Lemma merge_single (d : dict) : ODict.wf d -> _merge_attributes [d] = d.
Proof.
  intro Hd. rewrite merge_unfold. unfold merge_collect. simpl.
  destruct (fold_merge_single d [] []) as [Hf Hs]; simpl; auto.
  rewrite fold_add_variation_small by exact Hs. exact Hf.
Qed.

(** C1.  The documented rule is "keep the first non-empty value"; the code
    keeps the first value whether it is empty or not.  Merging a map whose
    ["a"] is the empty string with a map whose ["a"] is ["x"] yields the
    empty string for ["a"], where the rule asks for ["x"]. *)
Theorem merge_keeps_first_value_even_when_empty :
  _merge_attributes [[("a", VStr EmptyString)]; [("a", VStr "x")]]%string
  = [("a", VStr EmptyString)]%string.
Proof. reflexivity. Qed.

(** C9 (as the code has it).  For every list of attribute maps and every key, the
    companion key [<key>_variations] is written exactly when the set of
    distinct normalized values of the key that pass the truth test
    [if value:] -- [None], the empty string, [0] and [False] do not -- has
    more than one element, and then holds those values sorted
    lexicographically and joined by a comma and a space (otherwise the
    entry, if any, is the one the first-value rule produced for that
    name).  Permuting the maps leaves the set, the sorted list, the
    decision and the companion value unchanged. *)
Theorem variations_are_order_independent :
  forall (l l' : list dict) (key : string),
    Permutation l l' ->
    let D := distinct_values key l in
    ODict.get (_merge_attributes l) (variations_key key)
    = (if Z.of_nat (List.length D) >? 1
       then Some (VStr (join ", " (py_sorted String.leb D)))
       else ODict.get (List.concat l) (variations_key key))
    /\ NoDup D
    /\ StronglySorted (fun a b => String.leb a b = true)
         (py_sorted String.leb D)
    /\ Permutation (py_sorted String.leb D) D
    /\ (forall s, In s (distinct_values key l') <-> In s D)
    /\ py_sorted String.leb (distinct_values key l') = py_sorted String.leb D
    /\ List.length (distinct_values key l') = List.length D
    /\ ((Z.of_nat (List.length D) >? 1) = true ->
        ODict.get (_merge_attributes l') (variations_key key)
        = ODict.get (_merge_attributes l) (variations_key key)).
Proof.
  intros l l' key Hp D.
  assert (HpD : Permutation (distinct_values key l') D).
  { apply NoDup_Permutation; try apply NoDup_distinct.
    intro s. unfold D, distinct_values. rewrite !In_distinct.
    split; apply Permutation_in; [symmetry|];
      now apply Permutation_flat_map. }
  assert (Hs : py_sorted String.leb (distinct_values key l')
               = py_sorted String.leb D)
    by now apply sorted_strings_unique.
  assert (Hl : List.length (distinct_values key l') = List.length D)
    by now apply Permutation_length.
  repeat split.
  - apply merge_get_variations.
  - apply NoDup_distinct.
  - apply py_sorted_sorted; [apply String.leb_total | apply string_leb_trans].
  - apply py_sorted_perm.
  - apply Permutation_in. exact HpD.
  - apply Permutation_in. symmetry. exact HpD.
  - exact Hs.
  - exact Hl.
  - intro Hgt. rewrite !merge_get_variations. fold D.
    now rewrite Hl, Hs, Hgt.
Qed.

Lemma variations_are_order_independent_witness :
  let l := [[("a", VStr "y")]; [("a", VStr "x")]]%string in
  let l' := [[("a", VStr "x")]; [("a", VStr "y")]]%string in
  ODict.get (_merge_attributes l') "a_variations"%string
  = Some (VStr "x, y")
  /\ ODict.get (_merge_attributes l) "a_variations"%string
     = Some (VStr "x, y").
Proof.
  intros l l'.
  destruct (variations_are_order_independent l l' "a"%string
              (perm_swap _ _ _)) as [H1 [_ [_ [_ [_ [_ [_ H8]]]]]]].
  split.
  - transitivity (ODict.get (_merge_attributes l) (variations_key "a")).
    + apply H8. reflexivity.
    + exact H1.
  - exact H1.
Defined.

(** C9, the claim as worded fails: [0] and [5] are two distinct values of
    the key ["n"], yet [0] does not pass the truth test of line 120, so
    one value is tracked and no companion key is written. *)
Lemma variations_rule_as_stated_fails :
  ~ variations_rule_as_stated
      [[("n"%string, VInt 0)]; [("n"%string, VInt 5)]] "n"%string.
Proof. unfold variations_rule_as_stated. vm_compute. discriminate. Qed.

(** ** The de-duplicator *)

Arguments keqb : simpl never.

Lemma traverse_In {A B} (f : A -> option B) (l : list A) :
  (forall x, In x l -> exists y, f x = Some y) ->
  exists out, traverse f l = Some out
              /\ Forall2 (fun x y => f x = Some y) l out.
Proof.
  induction l as [|x r IH]; intro Hf; simpl.
  - exists []. split; auto.
  - destruct (Hf x (or_introl eq_refl)) as [y Hy]. rewrite Hy.
    destruct IH as [ys [Hys HF]]; [intros; apply Hf; now right|].
    rewrite Hys. exists (y :: ys). split; auto.
Qed.

Lemma traverse_map {A B C} (f : B -> option C) (g : A -> B) (l : list A) :
  traverse f (map g l) = traverse (fun x => f (g x)) l.
Proof.
  induction l as [|x r IH]; simpl; auto. now rewrite IH.
Qed.


Lemma Forall2_In_r {A B} (R : A -> B -> Prop) l1 l2 y :
  Forall2 R l1 l2 -> In y l2 -> exists x, In x l1 /\ R x y.
Proof.
  induction 1 as [|a b r1 r2 Hab HF IH]; simpl; [tauto|].
  intros [->|Hy].
  - exists a. auto.
  - destruct (IH Hy) as [x [Hx HR]]. exists x. auto.
Qed.

Lemma Forall2_map_eq {A B C} (f : B -> C) (R : A -> B -> Prop)
  (l1 : list A) (l2 : list B) (g : A -> C) :
  Forall2 R l1 l2 -> (forall x y, R x y -> f y = g x) ->
  map f l2 = map g l1.
Proof.
  induction 1 as [|a b r1 r2 Hab HF IH]; intro Hfg; simpl; auto.
  now rewrite (Hfg a b Hab), IH.
Qed.

Lemma or_empty_id (d : dict) : or_empty d = d.
Proof. now destruct d. Qed.

Lemma group_extractions_snoc l e :
  group_extractions (l ++ [e]) = group_step (group_extractions l) e.
Proof. unfold group_extractions. now rewrite fold_left_app. Qed.

Lemma members_snoc k l e :
  members k (l ++ [e])
  = members k l ++ (if keqb (key_of e) k then [e] else []).
Proof. unfold members. now rewrite filter_app. Qed.

Lemma members_In k l r : In r (members k l) <-> In r l /\ key_of r = k.
Proof.
  unfold members. rewrite filter_In.
  destruct (keqb_spec (key_of r) k); intuition congruence.
Qed.

Lemma members_nil k l : members k l = [] <-> ~ In k (map key_of l).
Proof.
  split.
  - intros E Hi. apply in_map_iff in Hi. destruct Hi as [r [Hk Hr]].
    assert (Hm : In r (members k l)) by now apply members_In.
    rewrite E in Hm. contradiction.
  - intro Hn. destruct (members k l) as [|r m] eqn:E; auto.
    exfalso. apply Hn.
    assert (Hm : In r (members k l)) by (rewrite E; now left).
    apply members_In in Hm. destruct Hm as [Hr <-]. now apply in_map.
Qed.

(** What the grouping loop holds for every identity. *)
Lemma group_state l k :
  ODict.get (group_extractions l) k
  = match members k l with
    | [] => None
    | _ :: _ => Some (group_of l k)
    end.
Proof.
  induction l as [|e l IH] using rev_ind; [reflexivity|].
  rewrite group_extractions_snoc. unfold group_step, group_of, mentions_in.
  rewrite members_snoc.
  destruct (keqb_spec (key_of e) k) as [Ek|Hn].
  - subst k. rewrite get_set_same. unfold get_or. rewrite IH.
    destruct (members (key_of e) l) as [|r m] eqn:E; simpl.
    + now rewrite app_nil_r.
    + unfold group_of, mentions_in. rewrite E. simpl.
      rewrite flat_map_app. simpl. rewrite app_nil_r, length_app. simpl.
      do 2 f_equal; try lia. now rewrite <- app_assoc.
  - rewrite get_set_other by assumption. rewrite IH, app_nil_r.
    reflexivity.
Qed.

Lemma group_keys l :
  ODict.keys (group_extractions l) = distinct (map key_of l).
Proof.
  induction l as [|e l IH] using rev_ind; [reflexivity|].
  rewrite group_extractions_snoc. unfold group_step.
  rewrite keys_set, mem_existsb, IH, map_app.
  change (map key_of [e]) with [key_of e].
  rewrite distinct_snoc.
  rewrite (existsb_keqb_ext (key_of e) (distinct (map key_of l))
             (map key_of l)) by apply In_distinct.
  reflexivity.
Qed.

Lemma group_wf l : ODict.wf (group_extractions l).
Proof. unfold ODict.wf. rewrite group_keys. apply NoDup_distinct. Qed.

Lemma grouped_eq l :
  group_extractions l
  = map (fun k => (k, group_of l k)) (distinct (map key_of l)).
Proof.
  rewrite <- group_keys. unfold ODict.keys. rewrite map_map.
  rewrite <- (map_id (group_extractions l)) at 1.
  apply map_ext_in. intros [k g] Hi. simpl. f_equal.
  pose proof (wf_In_get _ _ _ (group_wf l) Hi) as Hg.
  rewrite group_state in Hg.
  destruct (members k l); congruence.
Qed.

Lemma dedup_eq l :
  _deduplicate_extractions l
  = traverse (fun k => build_merged (group_of l k)) (distinct (map key_of l)).
Proof.
  unfold _deduplicate_extractions. rewrite grouped_eq at 1.
  now rewrite traverse_map.
Qed.

(** The de-duplicator returns, for every identity in first-seen order, the
    first member of the identity with the merged attributes of its group. *)
Lemma dedup_char l :
  exists out,
    _deduplicate_extractions l = Some out
    /\ Forall2
         (fun k e =>
            exists r, hd_error (members k l) = Some r
              /\ e = mkExtraction (extraction_class r) (extraction_text r)
                       (AttrDict (merged_attrs_of (group_of l k))))
         (distinct (map key_of l)) out.
Proof.
  rewrite dedup_eq.
  destruct (traverse_In (fun k => build_merged (group_of l k))
              (distinct (map key_of l))) as [out [Ho HF]].
  - intros k Hk. apply (proj1 (In_distinct _ _)) in Hk.
    unfold build_merged. simpl.
    destruct (members k l) as [|r m] eqn:E.
    + apply members_nil in E. contradiction.
    + simpl. eauto.
  - exists out. split; auto.
    eapply Forall2_impl; [|exact HF]. simpl. intros k e.
    unfold build_merged. simpl.
    destruct (hd_error (members k l)) as [r|]; [|discriminate].
    rewrite or_empty_id. intro E. inversion E. eauto.
Qed.

Lemma hd_members_find k l :
  hd_error (members k l) = find (fun x => keqb (key_of x) k) l.
Proof.
  unfold members. induction l as [|x r IH]; [reflexivity|].
  cbn [filter find]. destruct (keqb (key_of x) k); auto.
Qed.

Lemma hd_members_key k l r : hd_error (members k l) = Some r -> key_of r = k.
Proof.
  intro E. assert (Hm : In r (members k l)).
  { destruct (members k l); simpl in E; inversion E. now left. }
  now apply members_In in Hm.
Qed.

Lemma dedup_keys l out :
  Forall2
    (fun k e =>
       exists r, hd_error (members k l) = Some r
         /\ e = mkExtraction (extraction_class r) (extraction_text r)
                  (AttrDict (merged_attrs_of (group_of l k))))
    (distinct (map key_of l)) out ->
  map key_of out = distinct (map key_of l).
Proof.
  intro HF. rewrite <- (map_id (distinct (map key_of l))).
  eapply Forall2_map_eq; [exact HF|].
  intros k e [r [Hr ->]]. apply hd_members_key in Hr. exact Hr.
Qed.


Lemma distinct_length_nodup (ks : list ident) :
  List.length (distinct ks) = List.length (nodup ident_eq_dec ks).
Proof.
  apply Permutation_length, NoDup_Permutation.
  - apply NoDup_distinct.
  - apply NoDup_nodup.
  - intro k. now rewrite In_distinct, nodup_In.
Qed.

Lemma members_one_hd k l r :
  hd_error (members k l) = Some r -> mentions_in k l = 1 ->
  members k l = [r].
Proof.
  unfold mentions_in. destruct (members k l) as [|a [|b m]]; simpl;
    intros E Hl; inversion E; subst; auto.
  exfalso. lia.
Qed.

Lemma members_unique l e :
  NoDup (map key_of l) -> In e l -> members (key_of e) l = [e].
Proof.
  unfold members. induction l as [|a r IH]; simpl; [tauto|].
  intros Hnd Hi. inversion Hnd as [|? ? Hn Hr]; subst.
  destruct Hi as [->|Hi].
  - rewrite keqb_refl. f_equal.
    fold (members (key_of e) r). apply members_nil. exact Hn.
  - rewrite keqb_neq; auto.
    intro E. apply Hn. rewrite E. now apply in_map.
Qed.

(** C3 (as the code has it).  For every entity list the de-duplicator
    returns one merged entity per distinct identity -- class compared as
    is, text compared after [strip] and [lower], not after case folding --
    in the order in which the identities are first seen; each one carries
    the class and the text, in their original casing, of the first entity
    of its identity. *)
Theorem dedup_one_entity_per_identity :
  forall l : list Extraction,
  exists out,
    _deduplicate_extractions l = Some out
    /\ map key_of out = distinct (map key_of l)
    /\ NoDup (map key_of out)
    /\ (forall k, In k (map key_of out) <-> In k (map key_of l))
    /\ List.length out = List.length (nodup ident_eq_dec (map key_of l))
    /\ Forall
         (fun e =>
            exists r,
              find (fun x => keqb (key_of x) (key_of e)) l = Some r
              /\ extraction_class e = extraction_class r
              /\ extraction_text e = extraction_text r)
         out
    /\ (forall x y,
          key_of x = key_of y <->
          extraction_class x = extraction_class y
          /\ lower (strip (extraction_text x))
             = lower (strip (extraction_text y))).
Proof.
  intro l. destruct (dedup_char l) as [out [Ho HF]].
  pose proof (dedup_keys l out HF) as Hk.
  exists out. repeat split.
  - exact Ho.
  - exact Hk.
  - rewrite Hk. apply NoDup_distinct.
  - rewrite Hk. apply In_distinct.
  - rewrite Hk. apply In_distinct.
  - rewrite <- (length_map key_of), Hk. apply distinct_length_nodup.
  - apply Forall_forall. intros e He.
    destruct (Forall2_In_r _ _ _ _ HF He) as [k [_ [r [Hr ->]]]].
    exists r. repeat split.
    rewrite <- hd_members_find.
    replace (key_of _) with k; [exact Hr|].
    apply hd_members_key in Hr. now rewrite <- Hr.
  - unfold key_of in H. now inversion H.
  - unfold key_of in H. now inversion H.
  - intros [Hc Ht]. unfold key_of. now rewrite Hc, Ht.
Qed.

(** C3, the claim as worded fails: [lower] leaves the sharp s alone where
    case folding turns it into [ss], so the two spellings of one street
    name are one case-folded pair and the code keeps two entities. *)
Lemma one_entity_per_folded_identity_as_stated_fails :
  ~ one_entity_per_folded_identity_as_stated street_spelled_twice.
Proof.
  intros [out [Ho Hl]].
  vm_compute in Ho. injection Ho as <-.
  vm_compute in Hl. discriminate Hl.
Qed.

(** C4 (as the code has it).  For every entity list and every merged
    entity: when its group collapsed two or more raw entities, its
    [mention_count] attribute is that raw number; when its group holds
    exactly one raw entity, no [mention_count] is added, so the attribute
    is the one the raw entity's own dictionary carried and is absent when
    it carried none. *)
Theorem mention_count_added_only_to_larger_groups :
  forall l : list Extraction,
  exists out,
    _deduplicate_extractions l = Some out
    /\ Forall
         (fun e =>
            exists r,
              find (fun x => keqb (key_of x) (key_of e)) l = Some r
              /\ 1 <= mentions_in (key_of e) l
              /\ attr_get e "mention_count"%string
                 = if mentions_in (key_of e) l >? 1
                   then Some (VInt (mentions_in (key_of e) l))
                   else attr_get r "mention_count"%string)
         out.
Proof.
  intro l. destruct (dedup_char l) as [out [Ho HF]].
  exists out. split; [exact Ho|].
  apply Forall_forall. intros e He.
  destruct (Forall2_In_r _ _ _ _ HF He) as [k [_ [r [Hr ->]]]].
  assert (Hkey : key_of
            (mkExtraction (extraction_class r) (extraction_text r)
               (AttrDict (merged_attrs_of (group_of l k)))) = k)
    by (apply hd_members_key in Hr; exact Hr).
  rewrite Hkey. exists r.
  assert (Hpos : 1 <= mentions_in k l).
  { unfold mentions_in. destruct (members k l); simpl in *;
      [discriminate | lia]. }
  split; [now rewrite <- hd_members_find|]. split; [exact Hpos|].
  unfold attr_get at 1. simpl. unfold merged_attrs_of. simpl.
  destruct (mentions_in k l >? 1) eqn:Hgt.
  - apply get_set_same.
  - rewrite merge_get_other by apply mention_count_not_variations.
    assert (H1 : mentions_in k l = 1).
    { rewrite Z.gtb_ltb in Hgt. apply Z.ltb_ge in Hgt. lia. }
    rewrite (members_one_hd k l r Hr H1). simpl.
    unfold attr_get.
    destruct (attributes r) as [|[|a d]|v]; simpl; auto.
    now rewrite !app_nil_r.
Qed.

(** C4, the claim as worded fails: a lone entity whose own dictionary
    already holds [mention_count] (such as the output of an earlier
    de-duplication) keeps it. *)
Lemma mention_count_rule_as_stated_fails :
  ~ mention_count_rule_as_stated
      [mkExtraction "speaker" "John"
         (AttrDict [("mention_count"%string, VInt 2)])].
Proof.
  intro H.
  destruct (H _ _ eq_refl (or_introl eq_refl)) as [H1 _].
  specialize (H1 eq_refl). discriminate H1.
Qed.

(** C10.  For every entity list, every merged entity has a dictionary
    (possibly empty) as attributes, never [None]; the group of every
    identity counts all its raw entities and collects the attribute
    dictionaries of those that have a non-empty one, so an entity whose
    attributes are [None], empty or not a mapping adds to the count and
    contributes no map. *)
Theorem merged_attributes_are_always_a_dict :
  forall l : list Extraction,
  exists out,
    _deduplicate_extractions l = Some out
    /\ Forall (fun e => exists d, attributes e = AttrDict d) out
    /\ (forall k,
          In k (map key_of l) ->
          exists g,
            ODict.get (group_extractions l) k = Some g
            /\ g_count g = Z.of_nat (List.length (members k l))
            /\ g_all_attributes g
               = flat_map (fun x => contributed (attributes x))
                   (members k l))
    /\ (forall a,
          a = AttrNone \/ a = AttrDict [] \/ (exists v, a = AttrOther v) ->
          contributed a = [])
    /\ (forall d, d <> [] -> contributed (AttrDict d) = [d]).
Proof.
  intro l. destruct (dedup_char l) as [out [Ho HF]].
  exists out. split; [exact Ho|]. split; [|split; [|split]].
  - apply Forall_forall. intros e He.
    destruct (Forall2_In_r _ _ _ _ HF He) as [k [_ [r [Hr ->]]]].
    simpl. eauto.
  - intros k Hk. exists (group_of l k). rewrite group_state.
    destruct (members k l) eqn:E.
    + apply members_nil in E. contradiction.
    + rewrite <- E. repeat split.
  - intros a [->|[->|[v ->]]]; reflexivity.
  - intros [|a d] Hd; [congruence | reflexivity].
Qed.



(** ** The truncation policy *)

Lemma take_length (n : nat) (s : string) :
  (n <= String.length s)%nat -> String.length (take n s) = n.
Proof.
  revert s. induction n as [|n IH]; intros [|c s] Hn; simpl in *; auto;
    try lia.
  rewrite IH; auto. lia.
Qed.

Lemma get_take (n : nat) (s : string) (i : nat) :
  (i < n)%nat -> String.get i (take n s) = String.get i s.
Proof.
  revert s i. induction n as [|n IH]; intros s i Hi; [lia|].
  destruct s as [|c s]; simpl; auto.
  destruct i as [|i]; auto. apply IH. lia.
Qed.

Lemma get_Some_lt (s : string) (i : nat) (c : ascii) :
  String.get i s = Some c -> (i < String.length s)%nat.
Proof.
  revert i. induction s as [|a s IH]; intros [|i]; simpl; try discriminate;
    try lia.
  intro E. apply IH in E. lia.
Qed.

(** [rfind] returns [-1] when the character does not occur, and otherwise
    the index of its last occurrence. *)
Lemma rfind_from_spec (c : ascii) (s : string) (i found : Z) :
  (rfind_from c s i found = found
   /\ forall j, String.get j s <> Some c)
  \/ (exists j : nat,
        rfind_from c s i found = i + Z.of_nat j
        /\ String.get j s = Some c
        /\ forall j', (j < j')%nat -> String.get j' s <> Some c).
Proof.
  revert i found. induction s as [|a s IH]; intros i found; simpl.
  - left. split; auto. intros j. destruct j; discriminate.
  - destruct (IH (i + 1) (if Ascii.eqb a c then i else found))
      as [[Hr Hno]|[j [Hr [Hj Hno]]]].
    + destruct (Ascii.eqb_spec a c) as [->|Hn].
      * right. exists 0%nat. rewrite Hr. split; [lia|]. split; auto.
        intros [|j'] Hlt; [lia | apply Hno].
      * left. split; auto. intros [|j]; [congruence | apply Hno].
    + right. exists (S j). rewrite Hr. split; [lia|]. split; auto.
      intros [|j'] Hlt; [lia|]. apply Hno. lia.
Qed.

(** C5 (as the code has it).  A text of at most 8000 characters is
    returned unchanged.  A longer one is cut just before the last space
    character (U+0020) of its first 4000 characters when that space lies at
    an index greater than 3800, so that the result ends where a word ends;
    when there is no space at the indices 3801..3999 the result is exactly
    the first 4000 characters. *)
Theorem truncation_cuts_at_last_space :
  forall text : string,
    (len text <= 8000 -> extract_insights_text text = text)
    /\ (8000 < len text ->
        (exists p,
            3800 < p < 4000
            /\ char_at text p = Some " "%char
            /\ (forall j, p < j < 4000 -> char_at text j <> Some " "%char)
            /\ extract_insights_text text = slice_to text p
            /\ len (extract_insights_text text) = p)
        \/ ((forall j, 3800 < j < 4000 -> char_at text j <> Some " "%char)
            /\ extract_insights_text text = slice_to text 4000
            /\ len (extract_insights_text text) = 4000)).
Proof.
  intro text. unfold extract_insights_text. split.
  - intro Hle. replace (len text >? 8000) with false; auto.
    symmetry. rewrite Z.gtb_ltb. apply Z.ltb_ge. lia.
  - intro Hgt. replace (len text >? 8000) with true
      by (symmetry; rewrite Z.gtb_ltb; apply Z.ltb_lt; lia).
    unfold _chunk_and_extract.
    replace (len text >? 4000) with true
      by (symmetry; rewrite Z.gtb_ltb; apply Z.ltb_lt; lia).
    assert (Hcut : slice_to text 4000 = take 4000 text) by reflexivity.
    assert (Hlen : (4000 <= String.length text)%nat)
      by (unfold len in Hgt; lia).
    assert (Hat : forall j : nat, (j < 4000)%nat ->
              char_at text (Z.of_nat j) = String.get j (take 4000 text)).
    { intros j Hj. unfold char_at.
      replace (Z.of_nat j <? 0) with false
        by (symmetry; apply Z.ltb_ge; lia).
      now rewrite Nat2Z.id, get_take. }
    unfold rfind. rewrite Hcut.
    destruct (rfind_from_spec " "%char (take 4000 text) 0 (-1))
      as [[Hr Hno]|[j [Hr [Hj Hno]]]]; rewrite Hr.
    + right. change (-1 >? 4000 - 200) with false. cbv iota.
      split; [|split; auto].
      * intros j Hj. rewrite <- (Z2Nat.id j) by lia.
        rewrite Hat by lia. apply Hno.
      * unfold len. rewrite take_length by assumption. reflexivity.
    + assert (Hj4 : (j < 4000)%nat).
      { apply get_Some_lt in Hj. rewrite take_length in Hj; auto. }
      change (4000 - 200) with 3800.
      destruct (0 + Z.of_nat j >? 3800) eqn:Hc.
      * left. rewrite Z.gtb_ltb in Hc. apply Z.ltb_lt in Hc.
        exists (0 + Z.of_nat j). split; [lia|]. split; [|split; [|split]].
        -- rewrite Z.add_0_l. now rewrite Hat.
        -- intros j' Hj'. rewrite <- (Z2Nat.id j') by lia.
           rewrite Hat by lia. apply Hno. lia.
        -- reflexivity.
        -- unfold slice_to.
           replace (0 + Z.of_nat j <? 0) with false
             by (symmetry; apply Z.ltb_ge; lia).
           unfold len. rewrite take_length by lia. lia.
      * right. rewrite Z.gtb_ltb in Hc. apply Z.ltb_ge in Hc.
        split; [|split; auto].
        -- intros j' Hj'. rewrite <- (Z2Nat.id j') by lia.
           rewrite Hat by lia. apply Hno. lia.
        -- unfold len. rewrite take_length by assumption. reflexivity.
Qed.

Lemma truncation_cuts_at_last_space_witness :
  8000 < len text_with_space
  /\ ((exists p,
          3800 < p < 4000
          /\ char_at text_with_space p = Some " "%char
          /\ (forall j, p < j < 4000 ->
              char_at text_with_space j <> Some " "%char)
          /\ extract_insights_text text_with_space
             = slice_to text_with_space p
          /\ len (extract_insights_text text_with_space) = p)
      \/ ((forall j, 3800 < j < 4000 ->
           char_at text_with_space j <> Some " "%char)
          /\ extract_insights_text text_with_space
             = slice_to text_with_space 4000
          /\ len (extract_insights_text text_with_space) = 4000)).
Proof.
  split.
  - vm_compute. reflexivity.
  - apply (proj2 (truncation_cuts_at_last_space text_with_space)).
    vm_compute. reflexivity.
Defined.

(** C5, the claim as worded fails: a line feed is whitespace, yet the code
    looks for the space character only.  The text below has a line feed at
    index 3900, within the last 200 characters before position 4000; the
    code cuts it at position 4000, in the middle of a word, where the
    policy as worded cuts at the line feed. *)
Lemma truncation_as_stated_fails :
  len text_with_line_feed = 8001
  /\ char_at text_with_line_feed 3900 = Some (ascii_of_nat 10)
  /\ is_space (ascii_of_nat 10) = true
  /\ len (extract_insights_text text_with_line_feed) = 4000
  /\ len (truncate_as_stated text_with_line_feed) = 3900
  /\ extract_insights_text text_with_line_feed
     <> truncate_as_stated text_with_line_feed.
Proof.
  assert (H1 : len (extract_insights_text text_with_line_feed) = 4000)
    by (vm_compute; reflexivity).
  assert (H2 : len (truncate_as_stated text_with_line_feed) = 3900)
    by (vm_compute; reflexivity).
  repeat split; try (vm_compute; reflexivity); auto.
  intro E. rewrite E, H2 in H1. discriminate H1.
Qed.

(** ** The registry *)

Lemma unknown_tag_lookups (tag : string) :
  (forall d, tag <> DocumentType_value d) ->
  ODict.get TEMPLATES tag = None /\ ODict.get orders tag = None.
Proof.
  intro Hu.
  assert (Hneq : forall d, String.eqb (DocumentType_value d) tag = false).
  { intro d. apply String.eqb_neq. intro E. apply (Hu d). now symmetry. }
  unfold TEMPLATES, orders, ODict.get, keqb, EqKey_string.
  rewrite (Hneq STORY), (Hneq MEETING), (Hneq RESEARCH), (Hneq TECHNICAL),
    (Hneq LEGAL), (Hneq GENERAL).
  split; reflexivity.
Qed.

(** C6 (as the code has it).  Both lookups are total.  A tag that names a
    member of [DocumentType] gets that member's template and its (non-empty)
    priority map; any other tag gets the general template from
    [get_template], and from [_get_category_order] the empty priority map,
    under which every class has the default rank 999. *)
Theorem registry_lookup_is_total :
  forall tag : string,
    (forall d, tag = DocumentType_value d ->
       get_template tag
       = match d with
         | STORY => STORY_TEMPLATE
         | MEETING => MEETING_TEMPLATE
         | RESEARCH => RESEARCH_TEMPLATE
         | TECHNICAL => TECHNICAL_TEMPLATE
         | LEGAL => LEGAL_TEMPLATE
         | GENERAL => GENERAL_TEMPLATE
         end
       /\ ODict.get orders tag = Some (_get_category_order tag)
       /\ _get_category_order tag <> [])
    /\ ((forall d, tag <> DocumentType_value d) ->
        get_template tag = GENERAL_TEMPLATE
        /\ _get_category_order tag = []
        /\ forall cls, rank (_get_category_order tag) cls = 999).
Proof.
  intro tag. split.
  - intros d ->. destruct d; repeat split; discriminate.
  - intro Hu. destruct (unknown_tag_lookups tag Hu) as [Ht Ho].
    unfold get_template, _get_category_order, get_or. rewrite Ht, Ho.
    repeat split.
Qed.

Lemma registry_lookup_is_total_witness :
  get_template "contract" = GENERAL_TEMPLATE
  /\ _get_category_order "contract" = []
  /\ get_template "meeting" = MEETING_TEMPLATE.
Proof.
  destruct (registry_lookup_is_total "contract") as [_ Hu].
  destruct Hu as [H1 [H2 _]]; [intro d; destruct d; discriminate|].
  destruct (registry_lookup_is_total "meeting") as [Hk _].
  destruct (Hk MEETING eq_refl) as [H3 _].
  repeat split; assumption.
Defined.

(** C6, the claim as worded fails: for a tag outside [DocumentType] the
    priority map is empty, not the general one. *)
Lemma registry_fallback_as_stated_fails : ~ registry_fallback_as_stated.
Proof.
  intro H. destruct (H "contract"%string) as [_ H2].
  - intro d; destruct d; discriminate.
  - discriminate H2.
Qed.

(** ** Synthesis on the empty entity list *)

(** C7.  On the empty entity list, for every document type and every
    classification, the executive summary is the opening paragraph, the
    paragraph of the type with every count at zero, and the closing
    paragraph with zero entities in zero categories; the brief summary is
    the "no significant insights" message; the key insights and the
    detailed listing are empty. *)
Theorem empty_input_gives_degenerate_report :
  forall (float : Type) (format_percent0 : float -> string)
         (title : string -> string) (bullet : string)
         (doc_type : DocumentType)
         (classification : ClassificationResult float)
         (document_text : string),
    _generate_executive_summary format_percent0 [] doc_type classification
      document_text
    = [("This document has been classified as a <b>"
        ++ upper (DocumentType_value doc_type) ++ "</b> with "
        ++ format_percent0 (confidence classification) ++ " confidence. "
        ++ reasoning classification)%string;
       match doc_type with
       | STORY =>
           "The narrative features 0 main character(s) and explores 0 central theme(s). The story presents a compelling narrative with well-defined characters and meaningful themes."
       | MEETING =>
           "The meeting involved 0 participant(s) and resulted in 0 key decision(s) with 0 action item(s) identified for follow-up."
       | RESEARCH =>
           "This research paper presents 0 significant finding(s). The study employs rigorous methodology and contributes valuable insights to the field."
       | TECHNICAL =>
           "The technical documentation covers 0 component(s) and 0 function(s), providing comprehensive guidance for implementation and usage."
       | LEGAL =>
           "This legal document involves 0 party/parties with 0 defined obligation(s). The document establishes clear terms and responsibilities for all parties involved."
       | GENERAL =>
           "The document contains 0 key entities and insights. Analysis reveals important information across multiple categories."
       end%string;
       "In total, 0 unique entities were identified across 0 categories, providing a comprehensive understanding of the document's content and context."%string]
    /\ _generate_summary bullet [] doc_type
       = "No significant insights extracted from the document."%string
    /\ group_by_class [] = []
    /\ _generate_key_insights title (group_by_class []) doc_type = Some []
    /\ detailed_sections (DocumentType_value doc_type) [] = Some [].
Proof.
  intros. split; [destruct doc_type; reflexivity|].
  repeat split; reflexivity.
Qed.

(** ** The detailed listing *)

Lemma traverse_total {A B} (f : A -> option B) (g : A -> B) (l : list A) :
  (forall x, In x l -> f x = Some (g x)) -> traverse f l = Some (map g l).
Proof.
  induction l as [|x r IH]; intro Hf; simpl; auto.
  rewrite (Hf x (or_introl eq_refl)), IH; auto.
  intros; apply Hf; now right.
Qed.

Lemma StronglySorted_map {A B} (f : A -> B) (R : B -> B -> Prop) l :
  StronglySorted (fun a b => R (f a) (f b)) l -> StronglySorted R (map f l).
Proof.
  induction 1 as [|a r Hs IH Ha]; simpl; constructor; auto.
  rewrite Forall_map. exact Ha.
Qed.

Lemma StronglySorted_impl {A} (R S : A -> A -> Prop) l :
  (forall a b, R a b -> S a b) -> StronglySorted R l -> StronglySorted S l.
Proof.
  intro HRS. induction 1 as [|a r Hs IH Ha]; constructor; auto.
  eapply Forall_impl; [|exact Ha]. auto.
Qed.

Lemma filter_map_fst {A B} (p : A -> bool) (l : list (A * B)) :
  filter p (map fst l) = map fst (filter (fun ab => p (fst ab)) l).
Proof.
  induction l as [|[a b] r IH]; simpl; auto.
  destruct (p a); simpl; now rewrite IH.
Qed.

Lemma get_Some_In {K V} `{EqKeyLaws K} (d : list (K * V)) k v :
  ODict.get d k = Some v -> In (k, v) d.
Proof.
  induction d as [|[k' v'] r IH]; simpl; [discriminate|].
  destruct (keqb_spec k' k) as [->|Hn].
  - intro E. inversion E. now left.
  - intro E. right. now apply IH.
Qed.

(** *** Grouping by class *)

Lemma group_by_class_snoc l e :
  group_by_class (l ++ [e]) = class_step (group_by_class l) e.
Proof. unfold group_by_class. now rewrite fold_left_app. Qed.

Lemma of_class_snoc c l e :
  of_class c (l ++ [e])
  = of_class c l ++ (if keqb (extraction_class e) c then [e] else []).
Proof. unfold of_class. now rewrite filter_app. Qed.

Lemma of_class_In c l x :
  In x (of_class c l) <-> In x l /\ extraction_class x = c.
Proof.
  unfold of_class. rewrite filter_In.
  destruct (keqb_spec (extraction_class x) c); intuition congruence.
Qed.

Lemma class_state l c :
  ODict.get (group_by_class l) c
  = match of_class c l with
    | [] => None
    | _ :: _ => Some (of_class c l)
    end.
Proof.
  induction l as [|e l IH] using rev_ind; [reflexivity|].
  rewrite group_by_class_snoc, of_class_snoc. unfold class_step.
  destruct (keqb_spec (extraction_class e) c) as [Ec|Hn].
  - subst c. rewrite get_set_same. unfold get_or. rewrite IH.
    destruct (of_class (extraction_class e) l); reflexivity.
  - rewrite get_set_other by assumption. now rewrite IH, app_nil_r.
Qed.

Lemma class_keys l :
  ODict.keys (group_by_class l) = distinct (map extraction_class l).
Proof.
  induction l as [|e l IH] using rev_ind; [reflexivity|].
  rewrite group_by_class_snoc. unfold class_step.
  rewrite keys_set, mem_existsb, IH, map_app.
  change (map extraction_class [e]) with [extraction_class e].
  rewrite distinct_snoc.
  rewrite (existsb_keqb_ext (extraction_class e)
             (distinct (map extraction_class l)) (map extraction_class l))
    by apply In_distinct.
  reflexivity.
Qed.

Lemma class_wf l : ODict.wf (group_by_class l).
Proof. unfold ODict.wf. rewrite class_keys. apply NoDup_distinct. Qed.

Lemma class_grouped_eq l :
  group_by_class l
  = map (fun c => (c, of_class c l)) (distinct (map extraction_class l)).
Proof.
  rewrite <- class_keys. unfold ODict.keys. rewrite map_map.
  rewrite <- (map_id (group_by_class l)) at 1.
  apply map_ext_in. intros [c items] Hi. simpl. f_equal.
  pose proof (wf_In_get _ _ _ (class_wf l) Hi) as Hg.
  rewrite class_state in Hg.
  destruct (of_class c l); congruence.
Qed.

(** *** The sort by mention count *)

Lemma py_lt_numeric a b x y :
  py_int a = Some x -> py_int b = Some y -> py_lt a b = Some (x <? y).
Proof.
  destruct a as [|[|]| |]; destruct b as [|[|]| |]; simpl;
    try discriminate; intros Ha Hb; inversion Ha; inversion Hb; reflexivity.
Qed.

Lemma countable_key x :
  countable x = true ->
  mention_key x = Some (mkey x) /\ py_int (mkey x) = Some (mentions x).
Proof.
  unfold countable, mkey, mention_key, mentions, attr_get, get_or.
  destruct (attributes x) as [|d|v].
  - auto.
  - destruct (ODict.get d "mention_count"%string) as [v|]; auto.
    destruct (py_int v) eqn:E; [auto | discriminate].
  - destruct (truthy v); [discriminate | auto].
Qed.

Lemma countable_shown x :
  countable x = true -> exists b, mentioned_more_than_once x = Some b.
Proof.
  unfold countable, mentioned_more_than_once, get_or.
  destruct (attributes x) as [|d|v].
  - eauto.
  - destruct (ODict.get d "mention_count"%string) as [v|].
    + destruct (py_int v) as [n|] eqn:E; [|discriminate]. intros _.
      exists (1 <? n). now apply py_lt_numeric.
    + intros _. eexists. reflexivity.
  - destruct (truthy v); [discriminate | eauto].
Qed.

Lemma insert_desc_ok x l :
  py_int (mkey x) = Some (mentions x) ->
  Forall (fun y => py_int (mkey y) = Some (mentions y)) l ->
  insert_desc (mkey x) x (map (fun y => (mkey y, y)) l)
  = Some (map (fun y => (mkey y, y)) (insert_sorted by_mentions_desc x l)).
Proof.
  intros Hx. induction 1 as [|y r Hy Hr IH]; simpl; auto.
  rewrite (py_lt_numeric _ _ _ _ Hx Hy). unfold by_mentions_desc at 1.
  rewrite Z.leb_antisym.
  destruct (mentions x <? mentions y); simpl; auto.
  now rewrite IH.
Qed.

Lemma sort_desc_ok l :
  Forall (fun y => py_int (mkey y) = Some (mentions y)) l ->
  sort_desc (map (fun y => (mkey y, y)) l)
  = Some (map (fun y => (mkey y, y)) (py_sorted by_mentions_desc l)).
Proof.
  induction 1 as [|x r Hx Hr IH]; simpl; auto.
  rewrite IH. apply insert_desc_ok; auto.
  eapply Permutation_Forall; [|exact Hr].
  symmetry. apply py_sorted_perm.
Qed.

Lemma sorted_by_mentions_ok l :
  forallb countable l = true ->
  sorted_by_mentions l = Some (py_sorted by_mentions_desc l).
Proof.
  intro Hc. rewrite forallb_forall in Hc. unfold sorted_by_mentions.
  rewrite (traverse_total _ (fun y => (mkey y, y))).
  - rewrite sort_desc_ok.
    + simpl. now rewrite map_map, map_id.
    + apply Forall_forall. intros y Hy. now apply countable_key, Hc.
  - intros y Hy. destruct (countable_key y (Hc y Hy)) as [-> _].
    reflexivity.
Qed.

Lemma by_mentions_desc_total a b :
  by_mentions_desc a b = true \/ by_mentions_desc b a = true.
Proof. unfold by_mentions_desc. rewrite !Z.leb_le. lia. Qed.

Lemma by_mentions_desc_trans a b c :
  by_mentions_desc a b = true -> by_mentions_desc b c = true ->
  by_mentions_desc a c = true.
Proof. unfold by_mentions_desc. rewrite !Z.leb_le. lia. Qed.

Lemma category_order_bounds (doc_type : string) :
  Forall (fun kv => 1 <= snd kv <= 6) (_get_category_order doc_type).
Proof.
  unfold _get_category_order, get_or, orders. cbn [ODict.get].
  repeat match goal with
         | |- context [if ?b then _ else _] => destruct b
         end;
    repeat constructor; simpl; lia.
Qed.

Lemma grouped_items doc_type l c items :
  In (c, items)
     (py_sorted
        (fun a b : string * list Extraction =>
           rank (_get_category_order doc_type) (fst a)
           <=? rank (_get_category_order doc_type) (fst b))
        (group_by_class l)) ->
  items = of_class c l.
Proof.
  intro Hi. apply (Permutation_in _ (py_sorted_perm _ _)) in Hi.
  rewrite class_grouped_eq in Hi. apply in_map_iff in Hi.
  destruct Hi as [c' [E _]]. now inversion E.
Qed.

(** On countable entities the listing loop does not raise, and its result
    is the stable sort of the classes by rank, each class stably sorted by
    descending mention count. *)
Lemma detailed_sections_eq doc_type l :
  forallb countable l = true ->
  detailed_sections doc_type l
  = Some
      (map (fun ci : string * list Extraction =>
              (fst ci, py_sorted by_mentions_desc (snd ci)))
         (py_sorted
            (fun a b : string * list Extraction =>
               rank (_get_category_order doc_type) (fst a)
               <=? rank (_get_category_order doc_type) (fst b))
            (group_by_class l))).
Proof.
  intro Hc. unfold detailed_sections. apply traverse_total.
  intros [c items] Hi. cbn [fst snd].
  assert (Hitems : forallb countable items = true).
  { apply forallb_forall. intros x Hx.
    rewrite (grouped_items _ _ _ _ Hi) in Hx. apply of_class_In in Hx.
    rewrite forallb_forall in Hc. now apply Hc. }
  rewrite sorted_by_mentions_ok by assumption.
  destruct (traverse_In mentioned_more_than_once
              (py_sorted by_mentions_desc items)) as [bs [Hb _]].
  - intros x Hx. apply countable_shown.
    rewrite forallb_forall in Hitems. apply Hitems.
    eapply Permutation_in; [apply py_sorted_perm | exact Hx].
  - now rewrite Hb.
Qed.

Lemma traverse_Some_In {A B} (f : A -> option B) (l : list A) out x :
  traverse f l = Some out -> In x l -> exists y, f x = Some y /\ In y out.
Proof.
  revert out. induction l as [|a r IH]; intros out Ht Hx; [contradiction|].
  simpl in Ht. destruct (f a) as [b|] eqn:Ea; [|discriminate].
  destruct (traverse f r) as [bs|] eqn:Er; [|discriminate].
  inversion Ht; subst. destruct Hx as [->|Hx].
  - exists b. split; auto. now left.
  - destruct (IH bs eq_refl Hx) as [y [Hy Hin]]. exists y. split; auto.
    now right.
Qed.

Lemma insert_desc_perm {A} (k : value) (x : A) l l' :
  insert_desc k x l = Some l' -> Permutation l' ((k, x) :: l).
Proof.
  revert l'. induction l as [|[ky y] r IH]; intros l' H; simpl in H.
  - now inversion H.
  - destruct (py_lt k ky) as [[|]|]; [| |discriminate].
    + destruct (insert_desc k x r) as [r'|]; [|discriminate].
      inversion H; subst. rewrite (IH r' eq_refl). apply perm_swap.
    + now inversion H.
Qed.

Lemma sort_desc_perm {A} (l l' : list (value * A)) :
  sort_desc l = Some l' -> Permutation l' l.
Proof.
  revert l'. induction l as [|[k x] r IH]; intros l' H; simpl in H.
  - now inversion H.
  - destruct (sort_desc r) as [r'|]; [|discriminate].
    apply insert_desc_perm in H. rewrite H. constructor. now apply IH.
Qed.

Lemma traverse_keyed items keyed :
  traverse (fun x => option_map (fun k => (k, x)) (mention_key x)) items
  = Some keyed ->
  map snd keyed = items.
Proof.
  revert keyed. induction items as [|x r IH]; intros keyed H; simpl in H.
  - now inversion H.
  - destruct (mention_key x) as [k|]; [|discriminate]. simpl in H.
    destruct (traverse _ r) as [ks|]; [|discriminate].
    inversion H; subst. simpl. f_equal. now apply IH.
Qed.

Lemma sorted_by_mentions_perm items s :
  sorted_by_mentions items = Some s -> Permutation s items.
Proof.
  unfold sorted_by_mentions.
  destruct (traverse _ items) as [keyed|] eqn:Ek; [|discriminate].
  destruct (sort_desc keyed) as [sorted|] eqn:Es; [|discriminate].
  simpl. intro H. inversion H; subst.
  rewrite <- (traverse_keyed _ _ Ek).
  apply Permutation_map. now apply sort_desc_perm.
Qed.

Lemma mentioned_countable x b :
  mentioned_more_than_once x = Some b -> countable x = true.
Proof.
  unfold mentioned_more_than_once, countable, get_or.
  destruct (attributes x) as [|d|v]; auto.
  - destruct (ODict.get d "mention_count"%string) as [[|[|]| |]|];
      simpl; auto; discriminate.
  - destruct (truthy v); [discriminate | auto].
Qed.

(** The listing loop returns only when every entity is countable. *)
Lemma detailed_sections_countable doc_type l sections :
  detailed_sections doc_type l = Some sections ->
  forallb countable l = true.
Proof.
  unfold detailed_sections. intro Hs. apply forallb_forall. intros x Hx.
  assert (Hg : In (extraction_class x, of_class (extraction_class x) l)
                 (group_by_class l)).
  { rewrite class_grouped_eq.
    apply (in_map (fun c => (c, of_class c l))).
    apply In_distinct. now apply in_map. }
  eapply Permutation_in in Hg; [|symmetry; apply py_sorted_perm].
  destruct (traverse_Some_In _ _ _ _ Hs Hg) as [y [Hy _]].
  cbn [fst snd] in Hy.
  destruct (sorted_by_mentions (of_class (extraction_class x) l))
    as [sorted_items|] eqn:Esort; [|discriminate].
  destruct (traverse mentioned_more_than_once sorted_items)
    as [bs|] eqn:Eshown; [|discriminate].
  assert (Hin : In x sorted_items).
  { eapply Permutation_in;
      [symmetry; apply (sorted_by_mentions_perm _ _ Esort)|].
    now apply of_class_In. }
  destruct (traverse_Some_In _ _ _ _ Eshown Hin) as [b [Hb _]].
  now apply mentioned_countable in Hb.
Qed.

(** C8.  For every entity list and every document-type tag, the detailed
    listing is produced exactly when every entity is countable (attributes
    [None] or a mapping, [mention_count] absent or a number, as the
    de-duplicator emits them), and every listing produced has this order:
    its classes are
    the classes present, in ascending rank, a class absent from the
    priority map having rank 999 and so coming after every ranked class
    (ranks are at most 6), and classes of equal rank keeping the order in
    which they are first met; the entities of each class are those of the
    input, by descending mention count, an entity without the attribute
    counting as 1, and entities of equal count keeping their input order. *)
Theorem detailed_listing_order :
  forall (doc_type : string) (l : list Extraction),
    ((exists sections, detailed_sections doc_type l = Some sections)
     <-> forallb countable l = true)
    /\ forall sections,
      detailed_sections doc_type l = Some sections ->
      Permutation (map fst sections) (distinct (map extraction_class l))
      /\ StronglySorted
           (fun a b => rank (_get_category_order doc_type) a
                       <= rank (_get_category_order doc_type) b)
           (map fst sections)
      /\ (forall r,
            filter (fun c => rank (_get_category_order doc_type) c =? r)
              (map fst sections)
            = filter (fun c => rank (_get_category_order doc_type) c =? r)
                (distinct (map extraction_class l)))
      /\ (forall c,
            match ODict.get (_get_category_order doc_type) c with
            | Some n => rank (_get_category_order doc_type) c = n /\ n < 999
            | None => rank (_get_category_order doc_type) c = 999
            end)
      /\ Forall
           (fun s : string * list Extraction =>
              Permutation (snd s) (of_class (fst s) l)
              /\ StronglySorted (fun x y => mentions y <= mentions x) (snd s)
              /\ forall n,
                   filter (fun x => mentions x =? n) (snd s)
                   = filter (fun x => mentions x =? n) (of_class (fst s) l))
           sections
      /\ (forall x,
            attr_get x "mention_count"%string = None -> mentions x = 1).
Proof.
  intros doc_type l. split.
  { split.
    - intros [sections Hs]. eapply detailed_sections_countable; eauto.
    - intro Hc. rewrite detailed_sections_eq by assumption. eauto. }
  intros sections Hs.
  pose proof (detailed_sections_countable _ _ _ Hs) as Hc.
  rewrite detailed_sections_eq in Hs by assumption.
  inversion Hs as [Hsec]. clear Hs Hsec.
  set (priority := _get_category_order doc_type).
  set (le := fun a b : string * list Extraction =>
               rank priority (fst a) <=? rank priority (fst b)).
  assert (Hfst : forall cats : list (string * list Extraction),
            map fst
              (map (fun ci : string * list Extraction =>
                      (fst ci, py_sorted by_mentions_desc (snd ci))) cats)
            = map fst cats).
  { intro cats. rewrite map_map. now apply map_ext. }
  rewrite Hfst.
  assert (Hkeys : map fst (group_by_class l)
                  = distinct (map extraction_class l))
    by apply class_keys.
  split; [|split; [|split; [|split; [|split]]]].
  - rewrite <- Hkeys. apply Permutation_map, py_sorted_perm.
  - apply StronglySorted_map.
    apply (StronglySorted_impl (fun a b => le a b = true)).
    + intros a b. unfold le. now rewrite Z.leb_le.
    + apply py_sorted_sorted; unfold le; intros; rewrite ?Z.leb_le in *; lia.
  - intro r. rewrite filter_map_fst, filter_py_sorted.
    + now rewrite <- (filter_map_fst (fun c => rank priority c =? r)), Hkeys.
    + intros a b Ha Hb. unfold le.
      apply Z.eqb_eq in Ha, Hb. apply Z.leb_le. lia.
  - intro c. unfold rank, get_or.
    destruct (ODict.get priority c) as [n|] eqn:E; auto. split; auto.
    apply get_Some_In in E.
    pose proof (category_order_bounds doc_type) as Hb.
    rewrite Forall_forall in Hb. specialize (Hb _ E). simpl in Hb. lia.
  - rewrite Forall_map. apply Forall_forall. intros [c items] Hi.
    cbn [fst snd]. rewrite <- (grouped_items _ _ _ _ Hi).
    split; [apply py_sorted_perm | split].
    + apply (StronglySorted_impl (fun a b => by_mentions_desc a b = true)).
      * intros a b. unfold by_mentions_desc. now rewrite Z.leb_le.
      * apply py_sorted_sorted;
          [apply by_mentions_desc_total | apply by_mentions_desc_trans].
    + intro n. apply filter_py_sorted.
      intros a b Ha Hb. unfold by_mentions_desc.
      apply Z.eqb_eq in Ha, Hb. apply Z.leb_le. lia.
  - intros x Hx. unfold mentions. now rewrite Hx.
Qed.

Lemma detailed_listing_order_witness :
  Permutation ["speaker"; "decision"]%string
    (distinct (map extraction_class meeting_entities)).
Proof.
  destruct (detailed_listing_order "meeting" meeting_entities)
    as [_ H].
  destruct (H _ eq_refl) as [H1 _]. exact H1.
Defined.

Example detailed_listing_meeting :
  detailed_sections "meeting" meeting_entities
  = Some
      [("speaker",
        [mkExtraction "speaker" "John"
           (AttrDict [("mention_count", VInt 2)]);
         mkExtraction "speaker" "Ann" (AttrDict [])]);
       ("decision",
        [mkExtraction "decision" "Approve budget" (AttrDict [])])]%string.
Proof. reflexivity. Qed.

(** ** The worked examples of the specification *)

Example merge_two_values :
  _merge_attributes [[("a", VStr "x")]; [("a", VStr "y")]]%string
  = [("a", VStr "x"); ("a_variations", VStr "x, y")]%string.
Proof. reflexivity. Qed.

Example merge_empty_map_first :
  _merge_attributes [[]; [("a", VStr "x")]]%string = [("a", VStr "x")]%string.
Proof. reflexivity. Qed.

Example merge_no_maps : _merge_attributes [] = [].
Proof. reflexivity. Qed.

Example dedup_end_to_end :
  _deduplicate_extractions
    [mkExtraction "speaker" "John" AttrNone;
     mkExtraction "speaker" " john" (AttrDict [("role", VStr "PM")]);
     mkExtraction "decision" "Approve budget" AttrNone]%string
  = Some
      [mkExtraction "speaker" "John"
         (AttrDict [("role", VStr "PM"); ("mention_count", VInt 2)]);
       mkExtraction "decision" "Approve budget" (AttrDict [])]%string.
Proof. reflexivity. Qed.

(** * Further properties of the code *)

(** ** Truncation *)

Lemma take_all (s : string) : take (String.length s) s = s.
Proof. induction s as [|c s IH]; simpl; auto. now rewrite IH. Qed.

Lemma slice_to_len (s : string) : slice_to s (len s) = s.
Proof.
  unfold slice_to, len.
  replace (Z.of_nat (String.length s) <? 0) with false
    by (symmetry; apply Z.ltb_ge; lia).
  rewrite Nat2Z.id. apply take_all.
Qed.

Lemma chunk_long (text : string) :
  4000 < len text ->
  exists n,
    3800 < n <= 4000
    /\ _chunk_and_extract text = slice_to text n
    /\ len (_chunk_and_extract text) = n
    /\ (n < 4000 -> char_at text n = Some " "%char).
Proof.
  intro Hgt. unfold _chunk_and_extract.
  replace (len text >? 4000) with true
    by (symmetry; rewrite Z.gtb_ltb; apply Z.ltb_lt; lia).
  assert (Hcut : slice_to text 4000 = take 4000 text) by reflexivity.
  assert (Hlen : (4000 <= String.length text)%nat)
    by (unfold len in Hgt; lia).
  assert (Hfull : len (take 4000 text) = 4000).
  { unfold len. rewrite take_length by assumption. reflexivity. }
  unfold rfind. rewrite Hcut.
  destruct (rfind_from_spec " "%char (take 4000 text) 0 (-1))
    as [[Hr Hno]|[j [Hr [Hj Hno]]]]; rewrite Hr.
  - exists 4000. change (-1 >? 4000 - 200) with false. cbv iota.
    rewrite Hfull. repeat split; lia.
  - assert (Hj4 : (j < 4000)%nat).
    { apply get_Some_lt in Hj. rewrite take_length in Hj; auto. }
    change (4000 - 200) with 3800.
    destruct (0 + Z.of_nat j >? 3800) eqn:Hc.
    + rewrite Z.gtb_ltb in Hc. apply Z.ltb_lt in Hc.
      exists (0 + Z.of_nat j). split; [lia|]. split; [reflexivity|]. split.
      * unfold slice_to.
        replace (0 + Z.of_nat j <? 0) with false
          by (symmetry; apply Z.ltb_ge; lia).
        unfold len. rewrite take_length by lia. lia.
      * intros _. rewrite Z.add_0_l. unfold char_at.
        replace (Z.of_nat j <? 0) with false
          by (symmetry; apply Z.ltb_ge; lia).
        rewrite Nat2Z.id. now rewrite <- (get_take 4000) by assumption.
    + exists 4000. rewrite Hfull. repeat split; lia.
Qed.

(** X1.  [_chunk_and_extract] returns a text of at most 4000 characters
    unchanged; from a longer one it keeps a prefix of more than 3800 and
    at most 4000 characters, and when the prefix is shorter than 4000 the
    character that follows it in the text is a space. *)
Theorem chunk_keeps_most_of_the_first_4000 :
  forall text : string,
    (len text <= 4000 -> _chunk_and_extract text = text)
    /\ (4000 < len text ->
        exists n,
          3800 < n <= 4000
          /\ _chunk_and_extract text = slice_to text n
          /\ len (_chunk_and_extract text) = n
          /\ (n < 4000 -> char_at text n = Some " "%char)).
Proof.
  intro text. split.
  - intro Hle. unfold _chunk_and_extract.
    replace (len text >? 4000) with false; auto.
    symmetry. rewrite Z.gtb_ltb. apply Z.ltb_ge. lia.
  - apply chunk_long.
Qed.

Lemma chunk_keeps_most_of_the_first_4000_witness :
  4000 < len text_with_space
  /\ exists n,
       3800 < n <= 4000
       /\ _chunk_and_extract text_with_space = slice_to text_with_space n
       /\ len (_chunk_and_extract text_with_space) = n
       /\ (n < 4000 -> char_at text_with_space n = Some " "%char).
Proof.
  split.
  - vm_compute. reflexivity.
  - apply (proj2 (chunk_keeps_most_of_the_first_4000 text_with_space)).
    vm_compute. reflexivity.
Defined.

(** X2.  The text [extract_insights] hands to the extractor is a prefix of
    the document of at most 8000 characters, and truncating it again
    changes nothing. *)
Theorem extractor_input_is_a_bounded_prefix :
  forall text : string,
    let sent := extract_insights_text text in
    len sent <= 8000
    /\ len sent <= len text
    /\ sent = slice_to text (len sent)
    /\ extract_insights_text sent = sent.
Proof.
  intros text sent. unfold sent, extract_insights_text.
  destruct (len text >? 8000) eqn:Hc.
  - rewrite Z.gtb_ltb in Hc. apply Z.ltb_lt in Hc.
    destruct (chunk_long text) as [n [Hn [Hs [Hl _]]]]; [lia|].
    rewrite Hl.
    replace (n >? 8000) with false
      by (symmetry; rewrite Z.gtb_ltb; apply Z.ltb_ge; lia).
    repeat split; try lia. exact Hs.
  - rewrite Hc. rewrite Z.gtb_ltb in Hc. apply Z.ltb_ge in Hc.
    repeat split; try lia. symmetry. apply slice_to_len.
Qed.

(** ** The attribute merger, as it behaves *)

Lemma get_app {K V} `{EqKeyLaws K} (d1 d2 : list (K * V)) (k : K) :
  ODict.get (d1 ++ d2) k
  = match ODict.get d1 k with
    | Some v => Some v
    | None => ODict.get d2 k
    end.
Proof.
  induction d1 as [|[k' v'] r IH]; simpl; auto.
  destruct (keqb k' k); auto.
Qed.

Lemma get_concat_first (l : list dict) (key : string) :
  ODict.get (List.concat l) key = first_value key l.
Proof.
  induction l as [|d r IH]; simpl; auto.
  now rewrite get_app, IH.
Qed.

Lemma fold_add_variation_keeps vs (m : dict) (key : string) :
  ODict.get m key <> None ->
  ODict.get (fold_left add_variation vs m) key <> None.
Proof.
  revert m. induction vs as [|[k vals] r IH]; intros m Hm; simpl; auto.
  apply IH. destruct (Z.of_nat (List.length vals) >? 1); auto.
  destruct (String.eqb_spec (variations_key k) key) as [<-|Hn].
  - now rewrite get_set_same.
  - now rewrite get_set_other.
Qed.

(** X3.  What the merger does with values: for every key that is not a
    companion key [<k>_variations], the merged value is the value of the
    first map that holds the key, whether that value is empty or not; and
    no key of any input map is missing from the merged map. *)
Theorem merge_takes_the_first_value :
  forall (l : list dict) (key : string),
    ((forall k, variations_key k <> key) ->
     ODict.get (_merge_attributes l) key = first_value key l)
    /\ (first_value key l <> None ->
        ODict.get (_merge_attributes l) key <> None).
Proof.
  intros l key. split.
  - intro Hk. rewrite merge_get_other by assumption.
    apply get_concat_first.
  - intro Hf. rewrite merge_unfold. apply fold_add_variation_keeps.
    now rewrite collect_fst_get, get_concat_first.
Qed.

Lemma merge_takes_the_first_value_witness :
  ODict.get
    (_merge_attributes
       [[("role", VStr EmptyString)]; [("role", VStr "PM")]]%string)
    "role"%string
  = Some (VStr EmptyString).
Proof.
  apply (proj1 (merge_takes_the_first_value
                  [[("role", VStr EmptyString)]; [("role", VStr "PM")]]%string
                  "role"%string)).
  intros k E. apply (f_equal String.length) in E.
  unfold variations_key in E. rewrite string_length_append in E.
  simpl in E. lia.
Defined.

(** X4.  Merging a single attribute map returns the map itself, with no
    companion key. *)
Theorem merge_of_one_map_is_the_map :
  forall d : dict, ODict.wf d -> _merge_attributes [d] = d.
Proof. exact merge_single. Qed.

Lemma merge_of_one_map_is_the_map_witness :
  _merge_attributes [[("role", VStr "PM"); ("title", VInt 3)]]%string
  = [("role", VStr "PM"); ("title", VInt 3)]%string.
Proof.
  apply merge_of_one_map_is_the_map.
  repeat constructor; simpl; intuition discriminate.
Defined.

Lemma concat_drop_empty {A} (l : list (list A)) :
  List.concat
    (filter (fun d => match d with [] => false | _ :: _ => true end) l)
  = List.concat l.
Proof.
  induction l as [|[|a d] r IH]; simpl; auto. now rewrite IH.
Qed.

(** X5.  Empty attribute maps have no effect on a merge: dropping them from
    the list gives the same merged map. *)
Theorem merge_ignores_empty_maps :
  forall l : list dict,
    _merge_attributes
      (filter (fun d => match d with [] => false | _ :: _ => true end) l)
    = _merge_attributes l.
Proof.
  intro l. rewrite !merge_unfold. unfold merge_collect.
  now rewrite !fold_merge_concat, concat_drop_empty.
Qed.

(** ** The de-duplicator, further *)

Lemma sum_Z_map_add {A} (f g : A -> Z) (l : list A) :
  sum_Z (map (fun x => f x + g x) l) = sum_Z (map f l) + sum_Z (map g l).
Proof. induction l as [|x r IH]; simpl; lia. Qed.

Lemma indicator_sum {K} `{EqKeyLaws K} (a : K) (ks : list K) :
  NoDup ks ->
  sum_Z (map (fun k => if keqb a k then 1 else 0) ks)
  = if existsb (keqb a) ks then 1 else 0.
Proof.
  induction 1 as [|k r Hn Hd IH]; simpl; auto.
  rewrite IH. destruct (keqb_spec a k) as [->|Hne]; simpl; auto.
  replace (existsb (keqb k) r) with false; auto.
  symmetry. apply not_true_is_false. now rewrite existsb_keqb_In.
Qed.

(** Sorting the elements of a list by a key into the classes of a
    duplicate-free list of keys that covers them loses and repeats none. *)
Lemma count_partition {A K} `{EqKeyLaws K} (f : A -> K) (ks : list K)
  (l : list A) :
  NoDup ks -> (forall x, In x l -> In (f x) ks) ->
  sum_Z (map (fun k =>
                Z.of_nat (List.length (filter (fun x => keqb (f x) k) l)))
           ks)
  = Z.of_nat (List.length l).
Proof.
  intros Hnd. induction l as [|x r IH]; intro Hin.
  - simpl. clear Hnd Hin. induction ks as [|k ks IHk]; simpl; auto.
  - rewrite (map_ext _
      (fun k => (if keqb (f x) k then 1 else 0)
                + Z.of_nat (List.length
                              (filter (fun y => keqb (f y) k) r)))).
    + rewrite sum_Z_map_add, IH, indicator_sum by
        (auto; intros; apply Hin; now right).
      replace (existsb (keqb (f x)) ks) with true.
      * simpl List.length. lia.
      * symmetry. apply existsb_keqb_In. apply Hin. now left.
    + intro k. cbn [filter]. destruct (keqb (f x) k); cbn [List.length]; lia.
Qed.

Lemma distinct_length_le {K} `{EqKeyLaws K} (l : list K) :
  (List.length (distinct l) <= List.length l)%nat.
Proof.
  apply NoDup_incl_length; [apply NoDup_distinct|].
  intros x Hx. now apply In_distinct.
Qed.

(** The [mention_count] entry of the merged attributes of a group. *)
Lemma merged_mention_count l k r :
  hd_error (members k l) = Some r ->
  ODict.get (merged_attrs_of (group_of l k)) "mention_count"%string
  = if mentions_in k l >? 1
    then Some (VInt (mentions_in k l))
    else attr_get r "mention_count"%string.
Proof.
  intro Hr. unfold merged_attrs_of. simpl.
  assert (Hpos : 1 <= mentions_in k l).
  { unfold mentions_in. destruct (members k l); simpl in *;
      [discriminate | lia]. }
  destruct (mentions_in k l >? 1) eqn:Hgt.
  - apply get_set_same.
  - rewrite merge_get_other by apply mention_count_not_variations.
    assert (H1 : mentions_in k l = 1).
    { rewrite Z.gtb_ltb in Hgt. apply Z.ltb_ge in Hgt. lia. }
    rewrite (members_one_hd k l r Hr H1). simpl.
    unfold attr_get.
    destruct (attributes r) as [|[|a d]|v]; simpl; auto.
    now rewrite !app_nil_r.
Qed.

(** X6.  No mention is lost or counted twice: the counts of the groups add
    up to the number of raw entities, the output is no longer than the
    input, and the numbers of raw entities behind the merged entities add
    up to the input length. *)
Theorem dedup_counts_add_up :
  forall l : list Extraction,
    sum_Z (map (fun kg : ident * group => g_count (snd kg))
             (group_extractions l))
    = Z.of_nat (List.length l)
    /\ exists out,
         _deduplicate_extractions l = Some out
         /\ (List.length out <= List.length l)%nat
         /\ sum_Z (map (fun e => mentions_in (key_of e) l) out)
            = Z.of_nat (List.length l).
Proof.
  intro l.
  assert (Hsum : sum_Z (map (fun k => mentions_in k l)
                          (distinct (map key_of l)))
                 = Z.of_nat (List.length l)).
  { unfold mentions_in, members.
    apply (count_partition key_of); [apply NoDup_distinct|].
    intros x Hx. apply In_distinct. now apply in_map. }
  split.
  - rewrite grouped_eq, map_map. exact Hsum.
  - destruct (dedup_char l) as [out [Ho HF]].
    pose proof (dedup_keys l out HF) as Hk.
    exists out. split; [exact Ho|]. split.
    + rewrite <- (length_map key_of out), Hk, <- (length_map key_of l).
      apply distinct_length_le.
    + rewrite <- Hsum, <- Hk, map_map. reflexivity.
Qed.

(** X7.  When no raw entity carries a [mention_count] attribute of its
    own, the count the report reads off a merged entity (its
    [mention_count], or 1 without one) is the number of raw entities of
    its identity, and these counts add up to the number of raw entities. *)
Theorem reported_mentions_add_up :
  forall l : list Extraction,
    Forall (fun e => attr_get e "mention_count"%string = None) l ->
    exists out,
      _deduplicate_extractions l = Some out
      /\ Forall (fun e => mentions e = mentions_in (key_of e) l) out
      /\ sum_Z (map mentions out) = Z.of_nat (List.length l).
Proof.
  intros l Hraw. destruct (dedup_char l) as [out [Ho HF]].
  pose proof (dedup_keys l out HF) as Hk.
  assert (Hm : Forall (fun e => mentions e = mentions_in (key_of e) l) out).
  { apply Forall_forall. intros e He.
    destruct (Forall2_In_r _ _ _ _ HF He) as [k [_ [r [Hr ->]]]].
    assert (Hkey : key_of
              (mkExtraction (extraction_class r) (extraction_text r)
                 (AttrDict (merged_attrs_of (group_of l k)))) = k)
      by (apply hd_members_key in Hr; exact Hr).
    rewrite Hkey. unfold mentions, attr_get. simpl.
    rewrite (merged_mention_count l k r Hr).
    destruct (mentions_in k l >? 1) eqn:Hgt; [reflexivity|].
    assert (Hin : In r l).
    { assert (Hmem : In r (members k l)).
      { destruct (members k l); simpl in Hr; inversion Hr. now left. }
      now apply members_In in Hmem. }
    rewrite Forall_forall in Hraw. rewrite (Hraw r Hin).
    assert (Hpos : 1 <= mentions_in k l).
    { unfold mentions_in. destruct (members k l); simpl in *;
        [discriminate | lia]. }
    rewrite Z.gtb_ltb in Hgt. apply Z.ltb_ge in Hgt. lia. }
  exists out. split; [exact Ho|]. split; [exact Hm|].
  rewrite (map_ext_in mentions (fun e => mentions_in (key_of e) l)).
  - assert (Hsum : sum_Z (map (fun k => mentions_in k l)
                            (distinct (map key_of l)))
                   = Z.of_nat (List.length l)).
    { unfold mentions_in, members.
      apply (count_partition key_of); [apply NoDup_distinct|].
      intros x Hx. apply In_distinct. now apply in_map. }
    rewrite <- Hsum, <- Hk, map_map. reflexivity.
  - rewrite Forall_forall in Hm. exact Hm.
Qed.

Lemma reported_mentions_add_up_witness :
  exists out,
    _deduplicate_extractions
      [mkExtraction "speaker" "John" AttrNone;
       mkExtraction "speaker" "john " (AttrDict [("role", VStr "PM")]);
       mkExtraction "decision" "Approve" AttrNone]%string
    = Some out
    /\ sum_Z (map mentions out) = 3.
Proof.
  destruct (reported_mentions_add_up
              [mkExtraction "speaker" "John" AttrNone;
               mkExtraction "speaker" "john " (AttrDict [("role", VStr "PM")]);
               mkExtraction "decision" "Approve" AttrNone]%string)
    as [out [H1 [_ H3]]].
  - repeat constructor.
  - exists out. split; assumption.
Defined.

(** X8.  On a list whose identities are pairwise distinct nothing is
    merged: every entity stays in place with its class and text, and its
    attributes become its own dictionary, or the empty dictionary when it
    had [None] or no mapping. *)
Theorem dedup_keeps_distinct_entities_in_place :
  forall l : list Extraction,
    NoDup (map key_of l) ->
    Forall (fun e => forall d, attributes e = AttrDict d -> ODict.wf d) l ->
    _deduplicate_extractions l
    = Some
        (map (fun e =>
                mkExtraction (extraction_class e) (extraction_text e)
                  (AttrDict
                     match attributes e with
                     | AttrDict d => d
                     | _ => []
                     end))
           l).
Proof.
  intros l Hnd Hwf.
  rewrite dedup_eq, distinct_id, traverse_map by assumption.
  apply traverse_total. intros e He.
  unfold build_merged. rewrite or_empty_id.
  unfold group_of, merged_attrs_of, mentions_in. simpl.
  rewrite (members_unique l e Hnd He). simpl.
  rewrite Forall_forall in Hwf. specialize (Hwf e He).
  destruct (attributes e) as [|[|kv d]|v]; try reflexivity.
  cbn [contributed app]. rewrite merge_single; auto.
Qed.

Lemma dedup_keeps_distinct_entities_in_place_witness :
  _deduplicate_extractions
    [mkExtraction "speaker" "John" AttrNone;
     mkExtraction "speaker" "Ann" (AttrDict [("role", VStr "PM")])]%string
  = Some
      [mkExtraction "speaker" "John" (AttrDict []);
       mkExtraction "speaker" "Ann" (AttrDict [("role", VStr "PM")])]%string.
Proof.
  apply (dedup_keeps_distinct_entities_in_place
           [mkExtraction "speaker" "John" AttrNone;
            mkExtraction "speaker" "Ann"
              (AttrDict [("role", VStr "PM")])]%string).
  - repeat constructor; simpl; intuition discriminate.
  - repeat constructor; intros d E; inversion E; subst;
      repeat constructor; simpl; intuition.
Defined.

(** ** Grouping by class and the summaries built on it *)

(** X9.  Grouping by class partitions the entities: the classes are the
    distinct classes in the order they are first met, each class holds
    exactly its entities in input order (at least one), the number an
    absent class is counted with is zero, and the group sizes add up to the
    number of entities. *)
Theorem group_by_class_partitions :
  forall l : list Extraction,
    map fst (group_by_class l) = distinct (map extraction_class l)
    /\ Forall (fun ci : string * list Extraction =>
                 snd ci = of_class (fst ci) l /\ snd ci <> [])
         (group_by_class l)
    /\ (forall cls,
          class_count (group_by_class l) cls
          = Z.of_nat (List.length (of_class cls l)))
    /\ sum_Z (map (fun ci : string * list Extraction =>
                     Z.of_nat (List.length (snd ci)))
                (group_by_class l))
       = Z.of_nat (List.length l).
Proof.
  intro l. split; [apply class_keys|]. split; [|split].
  - apply Forall_forall. intros [c items] Hi. simpl.
    pose proof (wf_In_get _ _ _ (class_wf l) Hi) as Hg.
    rewrite class_state in Hg.
    destruct (of_class c l) eqn:E; [discriminate|].
    inversion Hg; subst. split; [reflexivity | discriminate].
  - intro cls. unfold class_count, get_or. rewrite class_state.
    destruct (of_class cls l); reflexivity.
  - rewrite class_grouped_eq, map_map. simpl. unfold of_class.
    apply (count_partition extraction_class); [apply NoDup_distinct|].
    intros x Hx. apply In_distinct. now apply in_map.
Qed.

(** *** [_generate_summary] *)

Lemma count_by_class_snoc l e :
  count_by_class (l ++ [e])
  = ODict.set (count_by_class l) (extraction_class e)
      (get_or (count_by_class l) (extraction_class e) 0 + 1).
Proof. unfold count_by_class. now rewrite fold_left_app. Qed.

Lemma count_state l c :
  ODict.get (count_by_class l) c
  = match of_class c l with
    | [] => None
    | _ :: _ => Some (Z.of_nat (List.length (of_class c l)))
    end.
Proof.
  induction l as [|e l IH] using rev_ind; [reflexivity|].
  rewrite count_by_class_snoc, of_class_snoc.
  destruct (keqb_spec (extraction_class e) c) as [Ec|Hn].
  - subst c. rewrite get_set_same. unfold get_or. rewrite IH.
    destruct (of_class (extraction_class e) l) as [|x m]; [reflexivity|].
    rewrite length_app. cbn [app List.length]. f_equal. lia.
  - rewrite get_set_other by assumption. now rewrite IH, app_nil_r.
Qed.

Lemma count_keys l :
  ODict.keys (count_by_class l) = distinct (map extraction_class l).
Proof.
  induction l as [|e l IH] using rev_ind; [reflexivity|].
  rewrite count_by_class_snoc.
  rewrite keys_set, mem_existsb, IH, map_app.
  change (map extraction_class [e]) with [extraction_class e].
  rewrite distinct_snoc.
  rewrite (existsb_keqb_ext (extraction_class e)
             (distinct (map extraction_class l)) (map extraction_class l))
    by apply In_distinct.
  reflexivity.
Qed.

Lemma count_by_class_eq l :
  count_by_class l
  = map (fun c => (c, Z.of_nat (List.length (of_class c l))))
      (distinct (map extraction_class l)).
Proof.
  rewrite <- count_keys. unfold ODict.keys. rewrite map_map.
  rewrite <- (map_id (count_by_class l)) at 1.
  apply map_ext_in. intros [c n] Hi. simpl. f_equal.
  assert (Hwf : ODict.wf (count_by_class l))
    by (unfold ODict.wf; rewrite count_keys; apply NoDup_distinct).
  pose proof (wf_In_get _ _ _ Hwf Hi) as Hg.
  rewrite count_state in Hg.
  destruct (of_class c l); congruence.
Qed.

(** X10.  For a non-empty entity list the brief summary names the type in
    upper case, the number of entities, and then every distinct class once,
    in the order the classes are first met, each with the number of its
    entities. *)
Theorem summary_lists_each_class_once :
  forall (bullet : string) (e : Extraction) (r : list Extraction)
         (doc_type : DocumentType),
    let l := e :: r in
    _generate_summary bullet l doc_type
    = join " "
        ([("Analyzed as " ++ upper (DocumentType_value doc_type)
           ++ " document.")%string;
          ("Extracted " ++ str_of_Z (Z.of_nat (List.length l))
           ++ " entities:")%string]
         ++ map (fun c =>
                   (bullet ++ " "
                    ++ str_of_Z (Z.of_nat (List.length (of_class c l)))
                    ++ " " ++ c ++ "(s)")%string)
                (distinct (map extraction_class l))).
Proof.
  intros bullet e r doc_type l.
  change (_generate_summary bullet l doc_type)
    with (join " "
            ([("Analyzed as " ++ upper (DocumentType_value doc_type)
               ++ " document.")%string;
              ("Extracted " ++ str_of_Z (Z.of_nat (List.length l))
               ++ " entities:")%string]
             ++ map (fun cc : string * Z =>
                       (bullet ++ " " ++ str_of_Z (snd cc) ++ " " ++ fst cc
                        ++ "(s)")%string)
                    (count_by_class l))).
  now rewrite count_by_class_eq, map_map.
Qed.

(** *** [_generate_key_insights] *)

Lemma concat_map_singleton {A B} (f : A -> B) (l : list A) :
  List.concat (map (fun x => [f x]) l) = map f l.
Proof. induction l as [|x r IH]; simpl; auto. now rewrite IH. Qed.

Lemma insight_line_ok (title : string -> string) (c : string)
  (items : list Extraction) :
  items <> [] -> forallb countable items = true ->
  insight_line title (c, items) = Some [insight_of title c items].
Proof.
  intros Hne Hc. unfold insight_line, insight_of.
  destruct items as [|first rest]; [congruence|].
  rewrite sorted_by_mentions_ok by assumption.
  destruct rest as [|second rest]; [reflexivity|].
  destruct (Z.of_nat (List.length (first :: second :: rest)) =? 1) eqn:E1.
  - apply Z.eqb_eq in E1. simpl List.length in E1. lia.
  - reflexivity.
Qed.

(** On countable entities the key insights are one line per class, in the
    order the classes are first met. *)
Lemma key_insights_eq (title : string -> string) (l : list Extraction)
  (doc_type : DocumentType) :
  forallb countable l = true ->
  _generate_key_insights title (group_by_class l) doc_type
  = Some (map (fun c => insight_of title c (of_class c l))
            (distinct (map extraction_class l))).
Proof.
  intro Hc. unfold _generate_key_insights.
  rewrite class_grouped_eq, traverse_map.
  rewrite (traverse_total _
             (fun c => [insight_of title c (of_class c l)])).
  - simpl. now rewrite concat_map_singleton.
  - intros c Hin. apply (proj1 (In_distinct _ _)) in Hin.
    apply in_map_iff in Hin.
    destruct Hin as [x [Hx Hin]].
    apply insight_line_ok.
    + intro E. assert (Hm : In x (of_class c l))
        by (apply of_class_In; auto).
      rewrite E in Hm. contradiction.
    + apply forallb_forall. intros y Hy. apply of_class_In in Hy.
      rewrite forallb_forall in Hc. now apply Hc.
Qed.

(** X11.  On entities with numeric (or no) mention counts the key insights
    are one line per class present, in the order the classes are first met
    whatever the document type: the class name followed by the texts of
    its entities in input order when there are at most three, and
    otherwise by their number and the texts of the three most mentioned,
    ties in input order. *)
Theorem key_insights_one_line_per_class :
  forall (title : string -> string) (l : list Extraction)
         (doc_type : DocumentType),
    forallb countable l = true ->
    _generate_key_insights title (group_by_class l) doc_type
    = Some (map (fun c => insight_of title c (of_class c l))
              (distinct (map extraction_class l))).
Proof. exact key_insights_eq. Qed.

Lemma key_insights_one_line_per_class_witness :
  _generate_key_insights (fun s => s) (group_by_class meeting_entities)
    MEETING
  = Some ["decision: Approve budget"; "speaker: Ann, John"]%string.
Proof.
  apply (key_insights_one_line_per_class (fun s => s) meeting_entities
           MEETING).
  reflexivity.
Defined.

(** *** From the de-duplicator to the report *)

(** X12.  When every [mention_count] attribute a raw entity carries is a
    number, the output of the de-duplicator can always be reported: the
    detailed listing and the key insights are produced for every document
    type, without a comparison raising. *)
Theorem deduplicated_entities_can_be_reported :
  forall l : list Extraction,
    forallb raw_count_numeric l = true ->
    exists out,
      _deduplicate_extractions l = Some out
      /\ forallb countable out = true
      /\ (forall doc_type,
            exists sections, detailed_sections doc_type out = Some sections)
      /\ (forall title doc_type,
            exists lines,
              _generate_key_insights title (group_by_class out) doc_type
              = Some lines).
Proof.
  intros l Hraw. destruct (dedup_char l) as [out [Ho HF]].
  assert (Hc : forallb countable out = true).
  { apply forallb_forall. intros e He.
    destruct (Forall2_In_r _ _ _ _ HF He) as [k [_ [r [Hr ->]]]].
    unfold countable. simpl.
    rewrite (merged_mention_count l k r Hr).
    destruct (mentions_in k l >? 1); [reflexivity|].
    assert (Hin : In r l).
    { assert (Hmem : In r (members k l)).
      { destruct (members k l); simpl in Hr; inversion Hr. now left. }
      now apply members_In in Hmem. }
    rewrite forallb_forall in Hraw. specialize (Hraw r Hin).
    unfold raw_count_numeric in Hraw. unfold attr_get.
    destruct (attributes r); auto. }
  exists out. split; [exact Ho|]. split; [exact Hc|]. split.
  - intro doc_type. rewrite detailed_sections_eq by assumption. eauto.
  - intros title doc_type. rewrite key_insights_eq by assumption. eauto.
Qed.

Lemma deduplicated_entities_can_be_reported_witness :
  exists out,
    _deduplicate_extractions
      [mkExtraction "speaker" "John" AttrNone;
       mkExtraction "speaker" "john "
         (AttrDict [("mention_count", VInt 4)])]%string
    = Some out
    /\ forallb countable out = true.
Proof.
  destruct (deduplicated_entities_can_be_reported
              [mkExtraction "speaker" "John" AttrNone;
               mkExtraction "speaker" "john "
                 (AttrDict [("mention_count", VInt 4)])]%string eq_refl)
    as [out [H1 [H2 _]]].
  exists out. split; assumption.
Defined.

(** *** The two tables of the registry *)

Lemma sorted_eq_perm (l1 l2 : list string) :
  py_sorted String.leb l1 = py_sorted String.leb l2 -> Permutation l1 l2.
Proof.
  intro E. rewrite <- (py_sorted_perm String.leb l1).
  rewrite E. apply py_sorted_perm.
Qed.

(** X13.  The template registry and the priority table agree: for every
    document type the classes ranked by the priority map are exactly the
    classes the template declares, and their ranks are 1, 2, ... in the
    order of the map. *)
Theorem priority_maps_rank_the_declared_classes :
  forall d : DocumentType,
    let priority := _get_category_order (DocumentType_value d) in
    let template := get_template (DocumentType_value d) in
    Permutation (map fst priority) (extraction_classes template)
    /\ NoDup (extraction_classes template)
    /\ map snd priority
       = map Z.of_nat (seq 1 (List.length (extraction_classes template))).
Proof.
  intro d. destruct d; cbv zeta; (split; [|split]);
    try (apply sorted_eq_perm; reflexivity);
    try reflexivity;
    repeat constructor; simpl; intuition discriminate.
Qed.

(** ** The classifier *)

(** X14.  [_map_category] recognises exactly the six upper-case category
    names, each mapped to the member whose value is its lower-case form;
    every other string, the lower-case names included, gives [GENERAL]. *)
Theorem map_category_recognises_the_six_names :
  (forall d, _map_category (upper (DocumentType_value d)) = d)
  /\ (forall s,
        (forall d, s <> upper (DocumentType_value d)) ->
        _map_category s = GENERAL).
Proof.
  split.
  - intro d. destruct d; reflexivity.
  - intros s Hs. unfold _map_category, get_or. cbn [ODict.get].
    change (@keqb string EqKey_string) with String.eqb.
    repeat match goal with
           | |- context [String.eqb ?a s] =>
               destruct (String.eqb_spec a s) as [E|_];
                 [exfalso; subst s|]
           end;
      try reflexivity.
    + now apply (Hs STORY).
    + now apply (Hs MEETING).
    + now apply (Hs RESEARCH).
    + now apply (Hs TECHNICAL).
    + now apply (Hs LEGAL).
    + now apply (Hs GENERAL).
Qed.

Lemma map_category_recognises_the_six_names_witness :
  _map_category "story" = GENERAL /\ _map_category "STORY" = STORY.
Proof.
  destruct map_category_recognises_the_six_names as [H1 H2].
  split.
  - apply H2. intro d; destruct d; discriminate.
  - exact (H1 STORY).
Defined.

Lemma prefix_split (p s : string) :
  String.prefix p s = true -> exists rest, s = (p ++ rest)%string.
Proof.
  revert s. induction p as [|a p IH]; intros s Hp.
  - exists s. reflexivity.
  - destruct s as [|b s]; simpl in Hp; [discriminate|].
    destruct (ascii_dec a b) as [->|]; [|discriminate].
    destruct (IH s Hp) as [rest ->]. exists rest. reflexivity.
Qed.

Lemma prefix_append (p rest : string) :
  String.prefix p (p ++ rest) = true.
Proof.
  induction p as [|a p IH]; simpl.
  - now destruct rest.
  - destruct (ascii_dec a a); [exact IH | congruence].
Qed.

Section ClassifierFacts.
Context {float : Type}.
Variable parse_float : string -> option float.
Variable default_confidence : float.
Variable fallback_confidence : float.
Variable str_upper : string -> string.

Let line_step := parse_line parse_float default_confidence str_upper.
Let run := parse_from parse_float default_confidence str_upper.

Lemma parse_line_total (st : parse_state float) (line : string) :
  exists st', line_step st line = Some st'.
Proof.
  unfold line_step, parse_line.
  destruct (String.prefix "CATEGORY:" line) eqn:E1.
  { destruct (prefix_split _ _ E1) as [rest ->]. simpl. eauto. }
  destruct (String.prefix "CONFIDENCE:" line) eqn:E2.
  { destruct (prefix_split _ _ E2) as [rest ->]. simpl. eauto. }
  destruct (String.prefix "REASONING:" line) eqn:E3.
  { destruct (prefix_split _ _ E3) as [rest ->]. simpl. eauto. }
  eauto.
Qed.

Lemma parse_line_category st rest :
  line_step st ("CATEGORY:" ++ rest)
  = Some (mkParseState (Some (_map_category (str_upper (strip rest))))
            (ps_confidence st) (ps_reasoning st)).
Proof.
  unfold line_step, parse_line. now rewrite prefix_append.
Qed.

Lemma parse_line_confidence st rest :
  line_step st ("CONFIDENCE:" ++ rest)
  = Some (mkParseState (ps_category st)
            (match parse_float (strip rest) with
             | Some f => f
             | None => default_confidence
             end)
            (ps_reasoning st)).
Proof.
  unfold line_step, parse_line.
  replace (String.prefix "CATEGORY:" ("CONFIDENCE:" ++ rest)) with false
    by reflexivity.
  now rewrite prefix_append.
Qed.

Lemma parse_from_cons st line lines :
  run st (line :: lines)
  = match line_step st line with
    | Some st' => run st' lines
    | None => None
    end.
Proof.
  unfold run, parse_from, line_step. simpl.
  destruct (parse_line parse_float default_confidence str_upper st line);
    auto.
  induction lines as [|l r IH]; simpl; auto.
Qed.

Lemma parse_from_total st lines : exists st', run st lines = Some st'.
Proof.
  revert st. induction lines as [|line r IH]; intro st.
  - exists st. reflexivity.
  - rewrite parse_from_cons.
    destruct (parse_line_total st line) as [st1 ->]. apply IH.
Qed.

Lemma parse_from_app st pre post :
  run st (pre ++ post)
  = match run st pre with
    | Some st' => run st' post
    | None => None
    end.
Proof.
  revert st. induction pre as [|line r IH]; intro st; [reflexivity|].
  cbn [app]. rewrite !parse_from_cons.
  destruct (line_step st line); auto.
Qed.

(** A line changes only the variable its prefix names. *)
Lemma parse_line_fields st line st' :
  line_step st line = Some st' ->
  (String.prefix "CATEGORY:" line = false ->
   ps_category st' = ps_category st)
  /\ (String.prefix "CONFIDENCE:" line = false ->
      ps_confidence st' = ps_confidence st)
  /\ (String.prefix "REASONING:" line = false ->
      ps_reasoning st' = ps_reasoning st).
Proof.
  unfold line_step, parse_line.
  destruct (String.prefix "CATEGORY:" line) eqn:E1.
  { destruct (after_first ":" line); [|discriminate].
    intro E. inversion E; subst. simpl. repeat split; auto; discriminate. }
  destruct (String.prefix "CONFIDENCE:" line) eqn:E2.
  { destruct (after_first ":" line); [|discriminate].
    intro E. inversion E; subst. simpl. repeat split; auto; discriminate. }
  destruct (String.prefix "REASONING:" line) eqn:E3.
  { destruct (after_first ":" line); [|discriminate].
    intro E. inversion E; subst. simpl. repeat split; auto; discriminate. }
  intro E. inversion E; subst. repeat split; auto.
Qed.

Lemma parse_from_keeps_category st lines st' :
  (forall line, In line lines -> String.prefix "CATEGORY:" line = false) ->
  run st lines = Some st' -> ps_category st' = ps_category st.
Proof.
  revert st. induction lines as [|line r IH]; intros st Hno Hrun.
  - inversion Hrun. reflexivity.
  - rewrite parse_from_cons in Hrun.
    destruct (line_step st line) as [st1|] eqn:E1; [|discriminate].
    rewrite (IH st1); auto.
    + apply (parse_line_fields _ _ _ E1). apply Hno. now left.
    + intros l Hl. apply Hno. now right.
Qed.

Lemma parse_from_keeps_confidence st lines st' :
  (forall line, In line lines -> String.prefix "CONFIDENCE:" line = false) ->
  run st lines = Some st' -> ps_confidence st' = ps_confidence st.
Proof.
  revert st. induction lines as [|line r IH]; intros st Hno Hrun.
  - inversion Hrun. reflexivity.
  - rewrite parse_from_cons in Hrun.
    destruct (line_step st line) as [st1|] eqn:E1; [|discriminate].
    rewrite (IH st1); auto.
    + apply (parse_line_fields _ _ _ E1). apply Hno. now left.
    + intros l Hl. apply Hno. now right.
Qed.

Lemma classify_from_state text st :
  parse_lines parse_float default_confidence str_upper
    (split_char "010" (strip text)) = Some st ->
  classify_response parse_float default_confidence fallback_confidence
    str_upper (inr text)
  = match ps_category st with
    | None =>
        mkClassification GENERAL (ps_confidence st)
          "Unable to determine specific category"
    | Some category =>
        mkClassification category (ps_confidence st) (ps_reasoning st)
    end.
Proof. intro E. unfold classify_response. now rewrite E. Qed.

End ClassifierFacts.

(** X15.  Parsing a reply never raises: whatever the text, the loop ends
    in a state, so the "Classification failed" fallback can only come from
    a failing model call; and a reply without a line starting with
    [CATEGORY:] is classified [GENERAL] with the fixed rationale, whatever
    its [REASONING:] lines say. *)
Theorem reply_without_category_is_general :
  forall (float : Type) (parse_float : string -> option float)
         (default_confidence fallback_confidence : float)
         (str_upper : string -> string) (text : string),
    (exists st,
        parse_lines parse_float default_confidence str_upper
          (split_char "010" (strip text)) = Some st)
    /\ ((forall line,
           In line (split_char "010" (strip text)) ->
           String.prefix "CATEGORY:" line = false) ->
        document_type
          (classify_response parse_float default_confidence
             fallback_confidence str_upper (inr text)) = GENERAL
        /\ reasoning
             (classify_response parse_float default_confidence
                fallback_confidence str_upper (inr text))
           = "Unable to determine specific category"%string).
Proof.
  intros float parse_float dc fc up text.
  destruct (parse_from_total parse_float dc up
              (mkParseState None dc EmptyString)
              (split_char "010" (strip text))) as [st Hst].
  split; [exists st; exact Hst|].
  intro Hno. rewrite (classify_from_state _ _ _ _ _ _ Hst).
  rewrite (parse_from_keeps_category _ _ _ _ _ _ Hno Hst). simpl.
  split; reflexivity.
Qed.

Lemma reply_without_category_is_general_witness :
  reasoning
    (classify_response (fun _ : string => @None nat) 7%nat 5%nat upper
       (inr "REASONING: a narrative"%string))
  = "Unable to determine specific category"%string.
Proof.
  apply (reply_without_category_is_general nat (fun _ => None) 7%nat 5%nat
           upper "REASONING: a narrative"%string).
  intros line [<-|[]]. reflexivity.
Defined.

(** X16.  The last line starting with [CATEGORY:] decides the type: it is
    [_map_category] of what follows the prefix, stripped and put in upper
    case, so an unknown name gives [GENERAL]. *)
Theorem last_category_line_decides :
  forall (float : Type) (parse_float : string -> option float)
         (default_confidence fallback_confidence : float)
         (str_upper : string -> string)
         (text : string) (pre post : list string) (rest : string),
    split_char "010" (strip text)
    = pre ++ ("CATEGORY:" ++ rest)%string :: post ->
    (forall line, In line post -> String.prefix "CATEGORY:" line = false) ->
    document_type
      (classify_response parse_float default_confidence fallback_confidence
         str_upper (inr text))
    = _map_category (str_upper (strip rest)).
Proof.
  intros float parse_float dc fc up text pre post rest Hsplit Hno.
  destruct (parse_from_total parse_float dc up
              (mkParseState None dc EmptyString)
              (split_char "010" (strip text))) as [st Hst].
  rewrite (classify_from_state _ _ _ _ _ _ Hst).
  change (parse_lines parse_float dc up (split_char "010" (strip text)))
    with (parse_from parse_float dc up (mkParseState None dc EmptyString)
            (split_char "010" (strip text))) in Hst.
  rewrite Hsplit, parse_from_app in Hst.
  destruct (parse_from parse_float dc up (mkParseState None dc EmptyString)
              pre) as [st0|]; [|discriminate].
  rewrite parse_from_cons in Hst.
  rewrite parse_line_category in Hst.
  rewrite (parse_from_keeps_category _ _ _ _ _ _ Hno Hst). reflexivity.
Qed.

Lemma last_category_line_decides_witness :
  document_type
    (classify_response (fun _ : string => @None nat) 7%nat 5%nat upper
       (inr ("CATEGORY: story" ++ String "010" "CATEGORY:  Legal ")%string))
  = LEGAL.
Proof.
  apply (last_category_line_decides nat (fun _ => None) 7%nat 5%nat upper
           ("CATEGORY: story" ++ String "010" "CATEGORY:  Legal ")%string
           ["CATEGORY: story"%string] [] "  Legal"%string).
  - reflexivity.
  - intros line [].
Defined.

(** X17.  The last line starting with [CONFIDENCE:] decides the
    confidence: the number it holds, whatever its size, and the default
    when the text is no number, even if an earlier line held one. *)
Theorem last_confidence_line_decides :
  forall (float : Type) (parse_float : string -> option float)
         (default_confidence fallback_confidence : float)
         (str_upper : string -> string)
         (text : string) (pre post : list string) (rest : string),
    split_char "010" (strip text)
    = pre ++ ("CONFIDENCE:" ++ rest)%string :: post ->
    (forall line, In line post -> String.prefix "CONFIDENCE:" line = false) ->
    confidence
      (classify_response parse_float default_confidence fallback_confidence
         str_upper (inr text))
    = match parse_float (strip rest) with
      | Some f => f
      | None => default_confidence
      end.
Proof.
  intros float parse_float dc fc up text pre post rest Hsplit Hno.
  destruct (parse_from_total parse_float dc up
              (mkParseState None dc EmptyString)
              (split_char "010" (strip text))) as [st Hst].
  rewrite (classify_from_state _ _ _ _ _ _ Hst).
  change (parse_lines parse_float dc up (split_char "010" (strip text)))
    with (parse_from parse_float dc up (mkParseState None dc EmptyString)
            (split_char "010" (strip text))) in Hst.
  rewrite Hsplit, parse_from_app in Hst.
  destruct (parse_from parse_float dc up (mkParseState None dc EmptyString)
              pre) as [st0|]; [|discriminate].
  rewrite parse_from_cons in Hst.
  rewrite parse_line_confidence in Hst.
  pose proof (parse_from_keeps_confidence _ _ _ _ _ _ Hno Hst) as Hc.
  simpl in Hc. destruct (ps_category st); simpl; exact Hc.
Qed.

Lemma last_confidence_line_decides_witness :
  confidence
    (classify_response
       (fun s : string => if String.eqb s "9" then Some 9%nat else None)
       7%nat 5%nat upper
       (inr ("CONFIDENCE: 9" ++ String "010" "CONFIDENCE: high")%string))
  = 7%nat.
Proof.
  apply (last_confidence_line_decides nat
           (fun s : string => if String.eqb s "9" then Some 9%nat else None)
           7%nat 5%nat upper
           ("CONFIDENCE: 9" ++ String "010" "CONFIDENCE: high")%string
           ["CONFIDENCE: 9"%string] [] " high"%string).
  - reflexivity.
  - intros line [].
Defined.

(** ** The parser and the upload checks *)

(** X18.  The extension check of the analyze route and the dispatch of
    [parse_document] agree: an extension is allowed exactly when
    [parse_document] parses it rather than raising [ValueError]. *)
Theorem allowed_extensions_are_the_parsed_ones :
  forall (pdf_pages : string -> list (option string))
         (docx_paragraphs : string -> list string)
         (txt_content : string -> string)
         (file_path file_ext : string),
    extension_allowed file_ext = true
    <-> exists text,
          parse_document pdf_pages docx_paragraphs txt_content file_path
            file_ext = Parsed text.
Proof.
  intros. unfold extension_allowed, parse_document, ALLOWED_EXTENSIONS.
  cbn [existsb]. change (@keqb string EqKey_string) with String.eqb.
  destruct (String.eqb file_ext ".pdf"); [split; eauto|].
  destruct (String.eqb file_ext ".docx"); [split; eauto|].
  destruct (String.eqb file_ext ".txt"); [split; eauto|].
  simpl. split; [discriminate | intros [t Ht]; discriminate].
Qed.

Lemma join_nil (sep : string) : join sep [] = EmptyString.
Proof. reflexivity. Qed.

(** X19.  A document without text is refused rather than analysed: a PDF
    whose pages all lack text, and a DOCX whose paragraphs are all blank,
    parse to the empty string, which the emptiness test of the analyze
    route rejects. *)
Theorem documents_without_text_are_refused :
  forall (pages : list (option string)) (paragraphs : list string),
    Forall (fun p => p = None \/ p = Some EmptyString) pages ->
    Forall (fun t => strip t = EmptyString) paragraphs ->
    _parse_pdf pages = EmptyString
    /\ _parse_docx paragraphs = EmptyString
    /\ too_short (_parse_pdf pages) = true
    /\ too_short (_parse_docx paragraphs) = true.
Proof.
  intros pages paragraphs Hp Hd.
  assert (H1 : _parse_pdf pages = EmptyString).
  { unfold _parse_pdf.
    replace (flat_map _ pages) with (@nil string); [reflexivity|].
    induction Hp as [|p r [->| ->] Hr IH]; simpl; auto. }
  assert (H2 : _parse_docx paragraphs = EmptyString).
  { unfold _parse_docx.
    replace (filter _ paragraphs) with (@nil string); [reflexivity|].
    induction Hd as [|t r Ht Hr IH]; simpl; auto.
    now rewrite Ht. }
  rewrite H1, H2. repeat split.
Qed.

Lemma documents_without_text_are_refused_witness :
  too_short (_parse_pdf [None; Some EmptyString]) = true
  /\ too_short (_parse_docx ["   "%string; EmptyString]) = true.
Proof.
  destruct (documents_without_text_are_refused
              [None; Some EmptyString] ["   "%string; EmptyString])
    as [_ [_ [H3 H4]]].
  - constructor; [now left | constructor; [now right | constructor]].
  - repeat constructor.
  - split; assumption.
Defined.

(** ** The detailed listing holds every entity once *)

Lemma flat_map_nil_const {A B} (l : list A) :
  flat_map (fun _ : A => @nil B) l = [].
Proof. induction l; simpl; auto. Qed.

Lemma flat_map_ext_In {A B} (f g : A -> list B) (l : list A) :
  (forall x, In x l -> f x = g x) -> flat_map f l = flat_map g l.
Proof.
  induction l as [|x r IH]; intro Hfg; simpl; auto.
  rewrite (Hfg x (or_introl eq_refl)), IH; auto.
  intros; apply Hfg; now right.
Qed.

Lemma partition_cons_perm {A K} `{EqKeyLaws K} (f : A -> K) (ks : list K)
  (x : A) (r : list A) :
  NoDup ks -> In (f x) ks ->
  Permutation
    (flat_map (fun k => filter (fun y => keqb (f y) k) (x :: r)) ks)
    (x :: flat_map (fun k => filter (fun y => keqb (f y) k) r) ks).
Proof.
  induction 1 as [|k ks' Hn Hd IH]; intro Hin; [contradiction|].
  set (F1 := fun k0 => filter (fun y => keqb (f y) k0) (x :: r)) in *.
  set (F2 := fun k0 => filter (fun y => keqb (f y) k0) r) in *.
  change (Permutation (F1 k ++ flat_map F1 ks')
            (x :: (F2 k ++ flat_map F2 ks'))).
  assert (Hhead : F1 k = if keqb (f x) k then x :: F2 k else F2 k)
    by reflexivity.
  rewrite Hhead.
  destruct (keqb_spec (f x) k) as [E|Hne].
  - cbn [app]. apply perm_skip. apply Permutation_app_head.
    rewrite (flat_map_ext_In F1 F2); auto.
    intros k0 Hk0. unfold F1, F2. cbn [filter]. rewrite keqb_neq; auto.
    intro E0. apply Hn. now rewrite <- E, E0.
  - destruct Hin as [E|Hin]; [congruence|].
    rewrite (IH Hin). symmetry. apply Permutation_middle.
Qed.

Lemma partition_perm {A K} `{EqKeyLaws K} (f : A -> K) (ks : list K)
  (l : list A) :
  NoDup ks -> (forall x, In x l -> In (f x) ks) ->
  Permutation (flat_map (fun k => filter (fun y => keqb (f y) k) l) ks) l.
Proof.
  intro Hnd. induction l as [|x r IH]; intro Hin.
  - cbn [filter]. now rewrite flat_map_nil_const.
  - rewrite partition_cons_perm; auto; [|apply Hin; now left].
    apply perm_skip. apply IH. intros y Hy. apply Hin. now right.
Qed.

Lemma flat_map_perm_pointwise {A B} (f g : A -> list B) (l : list A) :
  (forall x, Permutation (f x) (g x)) ->
  Permutation (flat_map f l) (flat_map g l).
Proof.
  intro Hfg. induction l as [|x r IH]; simpl; auto.
  now apply Permutation_app.
Qed.

(** X20.  Whenever the detailed listing is produced, every entity of the
    input appears in it exactly once: the sections taken together are a
    rearrangement of the input. *)
Theorem detailed_listing_holds_every_entity_once :
  forall (doc_type : string) (l : list Extraction)
         (sections : list (string * list Extraction)),
    detailed_sections doc_type l = Some sections ->
    Permutation (flat_map snd sections) l
    /\ NoDup (map fst sections).
Proof.
  intros doc_type l sections Hs.
  pose proof (detailed_sections_countable _ _ _ Hs) as Hc.
  rewrite detailed_sections_eq in Hs by assumption.
  inversion Hs as [Hsec]. clear Hs Hsec.
  split.
  - rewrite flat_map_concat_map, map_map, <- flat_map_concat_map.
    cbn [snd].
    rewrite (flat_map_perm_pointwise _ snd)
      by (intro x; apply py_sorted_perm).
    rewrite (Permutation_flat_map snd (py_sorted_perm _ (group_by_class l))).
    rewrite class_grouped_eq, flat_map_concat_map, map_map,
      <- flat_map_concat_map.
    cbn [snd]. unfold of_class.
    apply (partition_perm extraction_class); [apply NoDup_distinct|].
    intros x Hx. apply In_distinct. now apply in_map.
  - rewrite map_map. cbn [fst].
    eapply Permutation_NoDup.
    + symmetry. apply Permutation_map. apply py_sorted_perm.
    + change (map (fun x : string * list Extraction => fst x)
                (group_by_class l))
        with (ODict.keys (group_by_class l)).
      rewrite class_keys. apply NoDup_distinct.
Qed.

Lemma detailed_listing_holds_every_entity_once_witness :
  Permutation
    [mkExtraction "speaker" "John" (AttrDict [("mention_count", VInt 2)]);
     mkExtraction "speaker" "Ann" (AttrDict []);
     mkExtraction "decision" "Approve budget" (AttrDict [])]%string
    meeting_entities.
Proof.
  destruct (detailed_listing_holds_every_entity_once "meeting"
              meeting_entities _ eq_refl) as [H _].
  exact H.
Defined.
